(** * refurb: the repeated-append check and the diagnostic pipeline

    A shallow embedding of [refurb/checks/builtin/list_extend/common.py]
    and [refurb/main.py], and the properties of the check, of the inline
    suppression filter, of the ordering of the report and of the exit
    status.

    Python [str] values are modelled as [string] (the UTF-8 bytes of the
    text; the byte-wise lexicographic order is the code-point order Python
    compares with).  Python [int] values are [Z]. *)

From Stdlib Require Import ZArith List String Ascii Bool Lia.
From Stdlib Require Import DecimalString Sorting.Permutation Sorting.Sorted.
From Stdlib Require OrderedTypeEx.
Import ListNotations.

Open Scope string_scope.
Open Scope Z_scope.

(** ** [refurb.error] *)

Module Errors.

(** Modelled from the spec: [refurb/error.py] is not among the sources.
    A Diagnostic carries a code, a short constant prefix used for
    rendering and ordering, a message, a position and a file name that is
    unset until the orchestrator stamps it. *)
Record Error : Type := mkError {
  line : Z;
  column : Z;
  msg : string;
  filename : option string;
  prefix : string;
  code : Z
}.

(** Modelled from the spec: the "rendered prefix+code" of a Diagnostic,
    [str(ErrorCode.from_error(type(error)))], is the prefix followed by the
    decimal form of the code. *)
Definition str_int (z : Z) : string := NilZero.string_of_int (Z.to_int z).

Definition error_code_str (e : Error) : string :=
  prefix e ++ str_int (code e).

(** The same Diagnostic at another line. *)
Definition at_line (e : Error) (l : Z) : Error :=
  {| line := l; column := column e; msg := msg e;
     filename := filename e; prefix := prefix e; code := code e |}.

End Errors.

(** ** The node shapes of [mypy.nodes] the check matches on *)

Module Nodes.

#[warnings="-register-all"]
Inductive Expression : Type :=
| NameExpr (name : string)
| MemberExpr (expr : Expression) (name : string)
| CallExpr (callee : Expression) (args : list Expression)
| OtherExpr.

Inductive Statement : Type :=
| ExpressionStmt (expr : Expression) (line column : Z)
| OtherStmt (line column : Z).

Definition line (s : Statement) : Z :=
  match s with
  | ExpressionStmt _ l _ => l
  | OtherStmt l _ => l
  end.

Definition column (s : Statement) : Z :=
  match s with
  | ExpressionStmt _ _ c => c
  | OtherStmt _ c => c
  end.

End Nodes.

(** ** [refurb.checks.builtin.list_extend.common] *)

Module ListExtend.
Import Nodes.

(** [ErrorUseListExtend(line, column)].  The class sets [code] and [msg];
    the prefix is the one the base class gives (modelled from the spec,
    which renders this code as [FURB113]), and the file name is unset. *)
Definition ErrorUseListExtend (line column : Z) : Errors.Error :=
  {| Errors.line := line;
     Errors.column := column;
     Errors.msg :=
       "Use `x.extend(...)` instead of repeatedly calling `x.append()`";
     Errors.filename := None;
     Errors.prefix := "FURB";
     Errors.code := 113 |}.

Record Last : Type := mkLast {
  name : string;
  line : Z;
  column : Z;
  did_error : bool
}.

(** [Last()] : the dataclass defaults. *)
Definition Last_new : Last :=
  {| name := ""; line := 0; column := 0; did_error := false |}.

(** The [case] pattern
    [ExpressionStmt(expr=CallExpr(callee=MemberExpr(expr=NameExpr(name=name),
    name="append")))]: the receiver's identifier when the statement has
    that shape. *)
Definition append_receiver (stmt : Statement) : option string :=
  match stmt with
  | ExpressionStmt (CallExpr (MemberExpr (NameExpr name) method) _) _ _ =>
      if (method =? "append")%string then Some name else None
  | _ => None
  end.

(** One iteration of the [for] loop: the state is the [last] record and
    the [errors] list the caller passed in, which the loop appends to. *)
Definition visit_stmt (st : Last * list Errors.Error) (stmt : Statement)
  : Last * list Errors.Error :=
  let '(last, errors) := st in
  match append_receiver stmt with
  | Some name =>
      let '(errors, did) :=
        if negb (did_error last) && (name =? ListExtend.name last)%string
        then ((errors ++ [ErrorUseListExtend (line last) (column last)])%list,
              true)
        else (errors, did_error last) in
      ({| name := name;
          line := Nodes.line stmt;
          column := Nodes.column stmt;
          did_error := did |}, errors)
  | None => (Last_new, errors)
  end.

Definition scan (stmts : list Statement) (st : Last * list Errors.Error)
  : Last * list Errors.Error :=
  fold_left visit_stmt stmts st.

(** [check_stmts(stmts, errors)]: the content of [errors] on return. *)
Definition check_stmts (stmts : list Statement) (errors : list Errors.Error)
  : list Errors.Error :=
  snd (scan stmts (Last_new, errors)).

(** [x.append(arg)] as a statement at a position. *)
Definition append_call (receiver : string) (line column : Z) : Statement :=
  ExpressionStmt
    (CallExpr (MemberExpr (NameExpr receiver) "append") [OtherExpr])
    line column.

(** The statement is an append call on the receiver [n]. *)
Definition appends_on (n : string) (stmt : Statement) : bool :=
  match append_receiver stmt with
  | Some m => (m =? n)%string
  | None => false
  end.

(** A run cannot be extended to the left: the block starts here or the
    statement before is not an append call on [n]. *)
Definition run_starts_after (n : string) (pre : list Statement) : Prop :=
  match rev pre with
  | [] => True
  | s :: _ => appends_on n s = false
  end.

(** The run starts a fresh scan: the block starts here or the statement
    before does not have the append shape at all. *)
Definition fresh_start (pre : list Statement) : Prop :=
  match rev pre with
  | [] => True
  | s :: _ => append_receiver s = None
  end.

(** The number of Diagnostics the specification's rule asks for: one for
    each maximal run of at least two consecutive append calls on the same
    receiver.  [cur] is the run being read: its receiver and length. *)
Definition spec_close (cur : option (string * nat)) : nat :=
  match cur with
  | Some (_, k) => if (2 <=? k)%nat then 1%nat else 0%nat
  | None => 0%nat
  end.

Fixpoint spec_runs (cur : option (string * nat)) (stmts : list Statement)
  : nat :=
  match stmts with
  | [] => spec_close cur
  | s :: rest =>
      match append_receiver s with
      | Some n =>
          match cur with
          | Some (m, k) =>
              if (m =? n)%string then spec_runs (Some (m, S k)) rest
              else (spec_close cur + spec_runs (Some (n, 1%nat)) rest)%nat
          | None => spec_runs (Some (n, 1%nat)) rest
          end
      | None => (spec_close cur + spec_runs None rest)%nat
      end
  end.

Definition spec_diagnostic_count (stmts : list Statement) : nat :=
  spec_runs None stmts.

(** The statement has the append shape, on any receiver. *)
Definition is_append (stmt : Statement) : bool :=
  match append_receiver stmt with
  | Some _ => true
  | None => false
  end.

(** The statement is not an append call on a receiver whose identifier is
    the empty string (no identifier of a parsed program is). *)
Definition named (stmt : Statement) : Prop :=
  append_receiver stmt <> Some "".

(** Two append calls on the same receiver. *)
Definition same_receiver (s1 s2 : Statement) : bool :=
  match append_receiver s1, append_receiver s2 with
  | Some a, Some b => (a =? b)%string
  | _, _ => false
  end.

(** What a stretch of append calls is expected to give: a Diagnostic at
    the first call that is followed by a call on the same receiver, and
    nothing after it. *)
Fixpoint segment_report (l : list Statement) : list Errors.Error :=
  match l with
  | [] => []
  | s1 :: tl =>
      match tl with
      | [] => []
      | s2 :: _ =>
          if same_receiver s1 s2
          then [ErrorUseListExtend (Nodes.line s1) (Nodes.column s1)]
          else segment_report tl
      end
  end.

(** The loop's invariant: the tracked name is empty, or it is the
    receiver of the statement read last, whose position is tracked. *)
Definition tracks (l : list Statement) (last : Last) : Prop :=
  name last = ""
  \/ exists l' s,
       l = (l' ++ [s])%list
       /\ append_receiver s = Some (name last)
       /\ line last = Nodes.line s
       /\ column last = Nodes.column s.

(** The Diagnostic [e] stands for two consecutive append calls of [l] on
    one receiver, and is located at the first. *)
Definition repeated_at (l : list Statement) (e : Errors.Error) : Prop :=
  exists pre s1 s2 post n,
    l = (pre ++ s1 :: s2 :: post)%list
    /\ appends_on n s1 = true
    /\ appends_on n s2 = true
    /\ e = ErrorUseListExtend (Nodes.line s1) (Nodes.column s1).

End ListExtend.

(** ** Python values the driver relies on: exceptions, indexing, [re] *)

Module Py.

(** The exceptions the driver can meet: of list indexing, of ordering a
    [str] against an [int], and of reading a source file (a file that
    cannot be opened, or that is not UTF-8). *)
Inductive exn : Type :=
| IndexError
| TypeError
| OSError
| UnicodeDecodeError.

(** The outcome of a Python expression that may raise. *)
Inductive result (A : Type) : Type :=
| Ok (a : A)
| Raise (e : exn).
Arguments Ok {A} a.
Arguments Raise {A} e.

Definition bind {A B : Type} (m : result A) (f : A -> result B) : result B :=
  match m with
  | Ok a => f a
  | Raise e => Raise e
  end.

Notation "x <- m ;; k" := (bind m (fun x => k))
  (at level 61, m at next level, right associativity).

(** [l[i]] on a list: a negative index counts from the end, and an index
    outside [-len(l) .. len(l)-1] raises [IndexError]. *)
Definition index {A : Type} (l : list A) (i : Z) : result A :=
  let n := Z.of_nat (List.length l) in
  let j := if i <? 0 then i + n else i in
  if (0 <=? j) && (j <? n) then
    match nth_error l (Z.to_nat j) with
    | Some x => Ok x
    | None => Raise IndexError
    end
  else Raise IndexError.

(** [[x for x in l if not p(x)]] where [p] may raise. *)
Fixpoint filter_not {A : Type} (p : A -> result bool) (l : list A)
  : result (list A) :=
  match l with
  | [] => Ok []
  | x :: l' =>
      b <- p x ;;
      r <- filter_not p l' ;;
      Ok (if b then r else x :: r)
  end.

(** [s[n:]] on a string. *)
Fixpoint drop (n : nat) (s : string) : string :=
  match n, s with
  | S n', String _ s' => drop n' s'
  | _, _ => s
  end.

Definition newline : string := String "010"%char "".

(** Values that occur in sort keys, with Python's [==] and [<] on them:
    a [str] and an [int] are unequal, and ordering them raises
    [TypeError]. *)
Inductive val : Type := VStr (s : string) | VInt (z : Z).

Definition val_eqb (a b : val) : bool :=
  match a, b with
  | VStr s, VStr t => (s =? t)%string
  | VInt x, VInt y => x =? y
  | _, _ => false
  end.

Definition val_lt (a b : val) : result bool :=
  match a, b with
  | VStr s, VStr t => Ok (String.ltb s t)
  | VInt x, VInt y => Ok (x <? y)
  | _, _ => Raise TypeError
  end.

(** [a < b] on tuples: the first position where the items differ decides;
    when one tuple is a prefix of the other, the shorter one is smaller. *)
Fixpoint tuple_lt (a b : list val) : result bool :=
  match a, b with
  | x :: a', y :: b' => if val_eqb x y then tuple_lt a' b' else val_lt x y
  | [], _ :: _ => Ok true
  | _, [] => Ok false
  end.

(** A total comparison of keys, used to reason about [tuple_lt]: it
    orders a [str] before an [int], and agrees with [tuple_lt] wherever
    that one does not raise. *)
Definition val_cmp (a b : val) : comparison :=
  match a, b with
  | VStr s, VStr t => String.compare s t
  | VInt x, VInt y => Z.compare x y
  | VStr _, VInt _ => Lt
  | VInt _, VStr _ => Gt
  end.

Fixpoint tuple_cmp (a b : list val) : comparison :=
  match a, b with
  | [], [] => Eq
  | [], _ :: _ => Lt
  | _ :: _, [] => Gt
  | x :: a', y :: b' =>
      match val_cmp x y with
      | Eq => tuple_cmp a' b'
      | c => c
      end
  end.

Definition is_lt (c : comparison) : bool :=
  match c with
  | Lt => true
  | _ => false
  end.

Definition same_type (a b : val) : Prop :=
  match a, b with
  | VStr _, VStr _ | VInt _, VInt _ => True
  | _, _ => False
  end.

(** [sorted(l, key=key)]: a stable sort that compares keys with [<] only.
    It is modelled as a stable insertion; on every input whose keys [<]
    orders consistently, any stable sort returns this same list.  With two
    elements the one comparison made is [key(l[1]) < key(l[0])], as in
    CPython. *)
Section Sorted.
Context {A : Type} (key : A -> list val).

Fixpoint insert (x : A) (l : list A) : result (list A) :=
  match l with
  | [] => Ok [x]
  | y :: l' =>
      b <- tuple_lt (key y) (key x) ;;
      if b then (r <- insert x l' ;; Ok (y :: r)) else Ok (x :: y :: l')
  end.

Fixpoint sorted (l : list A) : result (list A) :=
  match l with
  | [] => Ok []
  | x :: l' => r <- sorted l' ;; insert x r
  end.
End Sorted.

End Py.

(** ** The part of [re] that the patterns of [main.py] use *)

Module Re.

Inductive regex : Type :=
| Lit (s : string)                          (* literal text *)
| Repeat (cls : ascii -> bool) (lo hi : nat) (* [cls]{lo,hi}, greedy *)
| Seq (r1 r2 : regex)
| OptGroup (r : regex)                      (* ( r )? , capturing, greedy *)
| Eol.                                      (* $ *)

(** [[A-Z]] and [\d].  On a [str] pattern [\d] also matches the decimal
    digits of other scripts; source lines and prefixes are taken to use
    the ASCII digits only, so [\d] is [[0-9]] here. *)
Definition upper (c : ascii) : bool :=
  let n := N_of_ascii c in ((65 <=? n) && (n <=? 90))%N.

Definition digit (c : ascii) : bool :=
  let n := N_of_ascii c in ((48 <=? n) && (n <=? 57))%N.

Fixpoint strip (lit s : string) : option string :=
  match lit, s with
  | EmptyString, _ => Some s
  | String a lit', String b s' =>
      if Ascii.eqb a b then strip lit' s' else None
  | String _ _, EmptyString => None
  end.

(** [$] without [re.MULTILINE]: the end of the string, or just before a
    newline that is the last character. *)
Definition at_eol (s : string) : bool :=
  match s with
  | EmptyString => true
  | String c EmptyString => Ascii.eqb c "010"%char
  | _ => false
  end.

(** The text between the start [s] of a group and what is left, [rest]. *)
Definition consumed (s rest : string) : string :=
  substring 0 (String.length s - String.length rest) s.

Section Matcher.
Context {R : Type}.

Fixpoint rep_exact (cls : ascii -> bool) (n : nat) (s : string)
    (k : string -> option R) : option R :=
  match n with
  | O => k s
  | S n' =>
      match s with
      | String c s' => if cls c then rep_exact cls n' s' k else None
      | EmptyString => None
      end
  end.

Fixpoint rep_upto (cls : ascii -> bool) (n : nat) (s : string)
    (k : string -> option R) : option R :=
  match n, s with
  | S n', String c s' =>
      if cls c then
        match rep_upto cls n' s' k with
        | Some r => Some r
        | None => k s
        end
      else k s
  | _, _ => k s
  end.

(** A backtracking matcher: [k] is what is left of the pattern, called
    with the rest of the subject and the text of group 1 so far. *)
Fixpoint rmatch (r : regex) (s : string) (g : option string)
    (k : string -> option string -> option R) : option R :=
  match r with
  | Lit l =>
      match strip l s with
      | Some rest => k rest g
      | None => None
      end
  | Repeat cls lo hi =>
      rep_exact cls lo s
        (fun s1 => rep_upto cls (hi - lo) s1 (fun rest => k rest g))
  | Seq r1 r2 => rmatch r1 s g (fun rest g' => rmatch r2 rest g' k)
  | OptGroup r1 =>
      match rmatch r1 s g (fun rest _ => k rest (Some (consumed s rest)))
      with
      | Some res => Some res
      | None => k s g
      end
  | Eol => if at_eol s then k s g else None
  end.
End Matcher.

(** [re.match(r, s)]: the text of group 1 ([None] when the group did not
    take part), if the pattern matches at the start of [s]. *)
Definition match_at (r : regex) (s : string) : option (option string) :=
  rmatch r s None (fun _ g => Some g).

(** [re.search(r, s)]: the leftmost position where the pattern matches. *)
Fixpoint search (r : regex) (s : string) : option (option string) :=
  match match_at r s with
  | Some m => Some m
  | None =>
      match s with
      | EmptyString => None
      | String _ s' => search r s'
      end
  end.

(** [re.sub("^" + lit, repl, s)] for a literal [lit]: [^] matches at the
    start of the string only, so at most the leading occurrence is
    replaced. *)
Definition sub_leading (lit repl s : string) : string :=
  match strip lit s with
  | Some rest => repl ++ rest
  | None => s
  end.

Fixpoint all (cls : ascii -> bool) (s : string) : bool :=
  match s with
  | EmptyString => true
  | String c s' => cls c && all cls s'
  end.

Fixpoint last_char (s : string) : option ascii :=
  match s with
  | EmptyString => None
  | String c EmptyString => Some c
  | String _ s' => last_char s'
  end.

(** What a pattern can consume: [den r w rest gi go] when [r] matches the
    text [w] in front of [rest], taking group 1 from [gi] to [go]. *)
Fixpoint den (r : regex) (w rest : string) (gi go : option string) : Prop :=
  match r with
  | Lit l => w = l /\ go = gi
  | Repeat cls lo hi =>
      (lo <= String.length w <= lo + (hi - lo))%nat
      /\ all cls w = true /\ go = gi
  | Seq r1 r2 =>
      exists w1 w2 gm,
        w = w1 ++ w2 /\ den r1 w1 (w2 ++ rest) gi gm /\ den r2 w2 rest gm go
  | OptGroup r1 =>
      (w = "" /\ go = gi) \/ (exists gm, den r1 w rest gi gm /\ go = Some w)
  | Eol => w = "" /\ at_eol rest = true /\ go = gi
  end.

End Re.

(** ** [refurb.main] *)

Module Main.
Import Py.

(** An entry of the report: a raw message ([str]) or a Diagnostic. *)
Inductive item : Type :=
| Raw (text : string)
| Diag (error : Errors.Error).

Definition is_error (i : item) : bool :=
  match i with
  | Diag _ => true
  | Raw _ => false
  end.

(** Modelled from the spec: [refurb/settings.py] is not among the sources;
    these are the fields of [Settings] that [main.py] reads.  [explain]
    holds the code to explain, [files] and [load] may be unset. *)
Record Settings : Type := mkSettings {
  files : option (list string);
  help : bool;
  version : bool;
  generate : bool;
  explain : option string;
  load : option (list string);
  debug : bool;
  quiet : bool
}.

(** The collaborators of [main.py] that live outside it: the mypy engine,
    the check loader and visitor, the file system and the settings
    loader. *)
Record Env : Type := mkEnv {
  BuildSource : Type;
  Options : Type;
  BuildResult : Type;
  MypyFile : Type;
  (* [file.path] *)
  path : BuildSource -> option string;
  (* [process_options(files, stderr)]: the sources and options, or on
     [SystemExit] the lines written to [stderr] *)
  process_options :
    list string -> list string + (list BuildSource * Options);
  (* the three assignments to [opt] *)
  fine_grained : Options -> Options;
  (* [build(files, options)]: the result, or the messages of the
     [CompileError] *)
  build : list BuildSource -> Options -> list string + BuildResult;
  (* [result.graph[file.module].tree] *)
  tree : BuildResult -> BuildSource -> option MypyFile;
  (* [str(tree)] *)
  str_tree : MypyFile -> string;
  (* [visitor.errors] after [tree.accept(RefurbVisitor(load_checks(..)))] *)
  visit : Settings -> MypyFile -> list Errors.Error;
  (* [Path(filepath).read_text("utf8").splitlines()]: the lines of the
     file, or the exception of the read *)
  get_source_lines : string -> result (list string);
  (* [str(error)] on a Diagnostic *)
  str_error : Errors.Error -> string;
  (* [load_settings(args)]: the settings, or the text of the
     [ValueError] *)
  load_settings : list string -> string + Settings;
  version_text : string;
  explain_text : string -> list string -> string
}.

(** What [main] prints or runs, in order. *)
Inductive event : Type :=
| Usage
| Generate
| Print (text : string).

(** ["# noqa(: [A-Z]{3,4}\\d{3})?$"] *)
Definition noqa : Re.regex :=
  Re.Seq (Re.Lit "# noqa")
    (Re.Seq
       (Re.OptGroup
          (Re.Seq (Re.Lit ": ")
             (Re.Seq (Re.Repeat Re.upper 3 4) (Re.Repeat Re.digit 3 3))))
       Re.Eol).

(** The entries the orchestrator hands to the sort: a raw message, or a
    Diagnostic stamped with a non-empty file name. *)
Definition has_filename (i : item) : bool :=
  match i with
  | Raw _ => true
  | Diag e =>
      match Errors.filename e with
      | Some (String _ _) => true
      | _ => false
      end
  end.

Definition sort_errors (error : item) : list val :=
  match error with
  | Raw text => [VStr ""; VStr text]
  | Diag e =>
      [VStr (match Errors.filename e with Some f => f | None => "" end);
       VInt (Errors.line e);
       VInt (Errors.column e);
       VStr (Errors.prefix e);
       VInt (Errors.code e)]
  end.

Definition stamped (i : item) : Prop := has_filename i = true.

Definition is_raw (i : item) : bool :=
  match i with
  | Raw _ => true
  | Diag _ => false
  end.

(** The entry has the sort key [k]. *)
Definition has_key (k : list val) (i : item) : bool :=
  match tuple_cmp (sort_errors i) k with
  | Eq => true
  | _ => false
  end.

(** [a] may not come after [b] in the sorted report. *)
Definition item_le (a b : item) : Prop :=
  tuple_cmp (sort_errors a) (sort_errors b) <> Gt.

Section WithEnv.
Variable env : Env.

Definition ignored_via_comment (error : item) : result bool :=
  match error with
  | Raw _ => Ok false
  | Diag e =>
      match Errors.filename e with
      | None | Some EmptyString => Ok false
      | Some file =>
          lines <- get_source_lines env file ;;
          line <- index lines (Errors.line e - 1) ;;
          match Re.search noqa line with
          | Some ignore =>
              let error_code := Errors.error_code_str e in
              match ignore with
              | None | Some EmptyString => Ok true
              | Some ig =>
                  if (drop 2 ig =? error_code)%string then Ok true
                  else Ok false
              end
          | None => Ok false
          end
      end
  end.

Definition set_filename (p : option string) (e : Errors.Error)
  : Errors.Error :=
  {| Errors.line := Errors.line e;
     Errors.column := Errors.column e;
     Errors.msg := Errors.msg e;
     Errors.filename := p;
     Errors.prefix := Errors.prefix e;
     Errors.code := Errors.code e |}.

(** The body of [for file in files]: what one file adds to [errors]. *)
Definition file_errors (settings : Settings) (result : BuildResult env)
    (file : BuildSource env) : list item :=
  match tree env result file with
  | Some t =>
      ((if debug settings then [Raw (str_tree env t)] else [])
       ++ map (fun e => Diag (set_filename (path env file) e))
            (visit env settings t))%list
  | None => []
  end.

Definition run_refurb (settings : Settings) : result (list item) :=
  match process_options env
          (match files settings with Some fs => fs | None => [] end) with
  | inl stderr => Ok (map (fun err => Raw ("refurb: " ++ err)) stderr)
  | inr (files, opt) =>
      match build env files (fine_grained env opt) with
      | inl messages =>
          Ok (map (fun m => Raw (Re.sub_leading "mypy: " "refurb: " m))
                messages)
      | inr result =>
          let errors := flat_map (file_errors settings result) files in
          kept <- filter_not ignored_via_comment errors ;;
          sorted sort_errors kept
      end
  end.

Definition str_item (i : item) : string :=
  match i with
  | Raw text => text
  | Diag e => str_error env e
  end.

Definition format_errors (errors : list item) (quiet : bool) : string :=
  let done := String.concat newline (map str_item errors) in
  if negb quiet && existsb is_error errors then
    done ++ newline ++ newline
    ++ "Run `refurb --explain ERR` to further explain an error. Use `--quiet` to silence this message"
  else done.

(** [main(args)]: what is printed, and the status returned. *)
Definition main (args : list string) : result (list event * Z) :=
  match load_settings env args with
  | inl e => Ok ([Print e], 1)
  | inr settings =>
      if help settings then Ok ([Usage], 0)
      else if version settings then Ok ([Print (version_text env)], 0)
      else if generate settings then Ok ([Generate], 0)
      else
        match explain settings with
        | Some err =>
            Ok ([Print (explain_text env err
                          (match load settings with
                           | Some l => l
                           | None => []
                           end))], 0)
        | None =>
            errors <- run_refurb settings ;;
            let formatted_errors := format_errors errors (quiet settings) in
            Ok ((match formatted_errors with
                 | EmptyString => []
                 | _ => [Print formatted_errors]
                 end),
                match errors with
                | [] => 0
                | _ :: _ => 1
                end)
        end
  end.
End WithEnv.

(** Every Diagnostic of the run belongs to a file that can be read. *)
Definition sources_readable (env : Env) (settings : Settings)
    (result : BuildResult env) (sources : list (BuildSource env)) : Prop :=
  forall file p t e,
    In file sources ->
    path env file = Some p ->
    tree env result file = Some t ->
    In e (visit env settings t) ->
    exists lines, get_source_lines env p = Ok lines.

End Main.

(** ** A concrete environment

    An engine whose files are named by their path, whose trees are
    statement blocks read by [check_stmts], and whose build step fails
    when [failure] is set. *)

Module Demo.

Definition settings (files : list string) : Main.Settings :=
  {| Main.files := Some files;
     Main.help := false;
     Main.version := false;
     Main.generate := false;
     Main.explain := None;
     Main.load := None;
     Main.debug := false;
     Main.quiet := true |}.

Definition env (lines : string -> Py.result (list string))
    (blocks : string -> list Nodes.Statement)
    (failure : option (list string)) : Main.Env :=
  {| Main.BuildSource := string;
     Main.Options := unit;
     Main.BuildResult := unit;
     Main.MypyFile := list Nodes.Statement;
     Main.path := fun file => Some file;
     Main.process_options := fun files => inr (files, tt);
     Main.fine_grained := fun opt => opt;
     Main.build := fun _ _ =>
       match failure with
       | Some messages => inl messages
       | None => inr tt
       end;
     Main.tree := fun _ file => Some (blocks file);
     Main.str_tree := fun _ => "MypyFile";
     Main.visit := fun _ block => ListExtend.check_stmts block [];
     Main.get_source_lines := lines;
     Main.str_error := fun e => Errors.error_code_str e;
     Main.load_settings := fun args => inr (settings args);
     Main.version_text := "Refurb";
     Main.explain_text := fun err _ => err |}.

(** The same, with an option parser that gives up after writing the
    lines [stderr]. *)
Definition rejecting (stderr : list string) : Main.Env :=
  {| Main.BuildSource := string;
     Main.Options := unit;
     Main.BuildResult := unit;
     Main.MypyFile := list Nodes.Statement;
     Main.path := fun file => Some file;
     Main.process_options := fun _ => inl stderr;
     Main.fine_grained := fun opt => opt;
     Main.build := fun _ _ => inr tt;
     Main.tree := fun _ _ => None;
     Main.str_tree := fun _ => "MypyFile";
     Main.visit := fun _ block => ListExtend.check_stmts block [];
     Main.get_source_lines := fun _ => Py.Raise Py.OSError;
     Main.str_error := fun e => Errors.error_code_str e;
     Main.load_settings := fun args => inr (settings args);
     Main.version_text := "Refurb";
     Main.explain_text := fun err _ => err |}.

(** A file system that holds one file, [a.py], of three lines. *)
Definition a_py_lines : list string :=
  ["nums.append(4)  # noqa";
   "nums.append(5)  # noqa ";
   "nums.append(6)  # noqa: FURB113"].

Definition a_py (file : string) : Py.result (list string) :=
  if (file =? "a.py")%string then Py.Ok a_py_lines
  else Py.Raise Py.OSError.

(** A file system whose only file, [latin.py], is not UTF-8. *)
Definition latin_py (file : string) : Py.result (list string) :=
  if (file =? "latin.py")%string then Py.Raise Py.UnicodeDecodeError
  else Py.Raise Py.OSError.

(** An engine whose sources carry no path (modules given by name), with
    the statement block [block] as the tree of each. *)
Definition pathless (block : list Nodes.Statement) : Main.Env :=
  {| Main.BuildSource := string;
     Main.Options := unit;
     Main.BuildResult := unit;
     Main.MypyFile := list Nodes.Statement;
     Main.path := fun _ => None;
     Main.process_options := fun files => inr (files, tt);
     Main.fine_grained := fun opt => opt;
     Main.build := fun _ _ => inr tt;
     Main.tree := fun _ _ => Some block;
     Main.str_tree := fun _ => "MypyFile";
     Main.visit := fun _ block => ListExtend.check_stmts block [];
     Main.get_source_lines := fun _ => Py.Raise Py.OSError;
     Main.str_error := fun e => Errors.error_code_str e;
     Main.load_settings := fun args => inr (settings args);
     Main.version_text := "Refurb";
     Main.explain_text := fun err _ => err |}.

(** The settings of a run with [--debug]. *)
Definition debug_settings (files : list string) : Main.Settings :=
  {| Main.files := Some files;
     Main.help := false;
     Main.version := false;
     Main.generate := false;
     Main.explain := None;
     Main.load := None;
     Main.debug := true;
     Main.quiet := true |}.

Definition furb113 (l : Z) : Errors.Error :=
  {| Errors.line := l; Errors.column := 0; Errors.msg := "";
     Errors.filename := Some "a.py"; Errors.prefix := "FURB";
     Errors.code := 113 |}.

(** Two Diagnostics of one check at one position, told apart by their
    message only. *)
Definition finding (m : string) : Main.item :=
  Main.Diag {| Errors.line := 1; Errors.column := 0; Errors.msg := m;
               Errors.filename := Some "a.py"; Errors.prefix := "FURB";
               Errors.code := 113 |}.

End Demo.

(** * Properties of the repeated-append check *)

Section ListExtendFacts.
Import Nodes ListExtend.

Lemma scan_app (a b : list Statement) (st : Last * list Errors.Error) :
  scan (a ++ b) st = scan b (scan a st).
Proof. unfold scan. apply fold_left_app. Qed.

Lemma scan_snoc (a : list Statement) (s : Statement)
    (st : Last * list Errors.Error) :
  scan (a ++ [s]) st = visit_stmt (scan a st) s.
Proof. rewrite scan_app. reflexivity. Qed.

(** The loop only ever appends to [errors]. *)
Lemma scan_extends (l : list Statement) :
  forall (last : Last) (errors : list Errors.Error),
    exists out, snd (scan l (last, errors)) = (errors ++ out)%list.
Proof.
  induction l as [|s l IH]; intros last errors; simpl.
  - exists []. now rewrite app_nil_r.
  - unfold visit_stmt.
    destruct (append_receiver s) as [m|].
    + destruct (negb (did_error last) && (m =? name last)%string).
      * edestruct IH as [out Hout]. rewrite Hout.
        exists (ErrorUseListExtend (line last) (column last) :: out).
        now rewrite <- app_assoc.
      * apply IH.
    + apply IH.
Qed.

(** Where a run cannot be extended to the left, the tracked name differs
    from the run's receiver, unless that receiver is the empty string. *)
Lemma entry_name (n : string) (pre : list Statement)
    (errors : list Errors.Error) :
  n <> "" -> run_starts_after n pre ->
  name (fst (scan pre (Last_new, errors))) <> n.
Proof.
  intros Hn. unfold run_starts_after.
  destruct pre as [|s0 pre0] using rev_ind.
  - intros _ E. apply Hn. now rewrite <- E.
  - rewrite rev_app_distr. simpl. rewrite scan_snoc.
    destruct (scan pre0 (Last_new, errors)) as [last errs].
    unfold visit_stmt, appends_on.
    destruct (append_receiver s0) as [m|].
    + destruct (negb (did_error last) && (m =? name last)%string); simpl;
        intros H E; subst m; now rewrite String.eqb_refl in H.
    + simpl. intros _ E. apply Hn. now rewrite <- E.
Qed.

(** After a statement that does not have the append shape, or at the
    start of the block, the scan state is [Last()]. *)
Lemma entry_fresh (pre : list Statement) (errors : list Errors.Error) :
  fresh_start pre -> fst (scan pre (Last_new, errors)) = Last_new.
Proof.
  unfold fresh_start.
  destruct pre as [|s0 pre0] using rev_ind; [reflexivity|].
  rewrite rev_app_distr. simpl. rewrite scan_snoc.
  destruct (scan pre0 (Last_new, errors)) as [last errs].
  unfold visit_stmt. now intros ->.
Qed.

(** Once a Diagnostic was emitted, further append calls on the tracked
    receiver emit nothing. *)
Lemma scan_reported (n : string) (l : list Statement) :
  forall (last : Last) (errors : list Errors.Error),
    forallb (appends_on n) l = true ->
    did_error last = true ->
    snd (scan l (last, errors)) = errors.
Proof.
  induction l as [|s l IH]; intros last errors Hl Hd; [reflexivity|].
  simpl in Hl. apply andb_true_iff in Hl as [Hs Hl].
  simpl. unfold visit_stmt. unfold appends_on in Hs.
  destruct (append_receiver s) as [m|]; [|discriminate].
  rewrite Hd. simpl. now apply IH.
Qed.

(** The Diagnostics emitted while a run is read, from the state it is
    entered with. *)
Lemma scan_run (n : string) (first : Statement) (rest : list Statement)
    (last : Last) (errors : list Errors.Error) :
  appends_on n first = true ->
  forallb (appends_on n) rest = true ->
  rest <> [] ->
  name last <> n ->
  snd (scan (first :: rest) (last, errors)) =
    if did_error last then errors
    else (errors
          ++ [ErrorUseListExtend (Nodes.line first) (Nodes.column first)])%list.
Proof.
  intros Hf Hr Hne Hname.
  destruct rest as [|second rest]; [contradiction|].
  simpl in Hr. apply andb_true_iff in Hr as [Hs Hr].
  unfold appends_on in Hf, Hs.
  change (scan (first :: second :: rest) (last, errors))
    with (scan rest (visit_stmt (visit_stmt (last, errors) first) second)).
  assert (Hneq : (n =? name last)%string = false).
  { apply String.eqb_neq. congruence. }
  unfold visit_stmt.
  destruct (append_receiver first) as [m|]; [|discriminate].
  apply String.eqb_eq in Hf. subst m.
  rewrite Hneq, andb_false_r.
  destruct (append_receiver second) as [m|]; [|discriminate].
  apply String.eqb_eq in Hs. subst m. cbn [name did_error line column].
  rewrite String.eqb_refl, andb_true_r.
  destruct (did_error last); cbn [negb];
    now apply scan_reported with (n := n).
Qed.

(** The state the loop reaches does not depend on the list it appends
    to, and what it appends does not either. *)
Lemma scan_errors (l : list Statement) :
  forall (last : Last) (errors : list Errors.Error),
    scan l (last, errors)
      = (fst (scan l (last, [])),
         (errors ++ snd (scan l (last, [])))%list).
Proof.
  induction l as [|s l IH]; intros last errors.
  - simpl. now rewrite app_nil_r.
  - change (scan (s :: l) (last, errors))
      with (scan l (visit_stmt (last, errors) s)).
    change (scan (s :: l) (last, []))
      with (scan l (visit_stmt (last, []) s)).
    unfold visit_stmt.
    destruct (append_receiver s) as [m|]; [|apply IH].
    destruct (negb (did_error last) && (m =? name last)%string).
    + rewrite IH. rewrite (IH _ ([] ++ _)%list). cbn [fst snd].
      now rewrite <- app_assoc.
    + apply IH.
Qed.

Lemma check_stmts_errors (l : list Statement) (errors : list Errors.Error) :
  check_stmts l errors = (errors ++ check_stmts l [])%list.
Proof. unfold check_stmts. now rewrite scan_errors. Qed.

(** A statement that is not an append call ends the scan of what came
    before it: the statements after it are read as a block of their own. *)
Lemma check_stmts_break (a b : list Statement) (brk : Statement)
    (errors : list Errors.Error) :
  append_receiver brk = None ->
  check_stmts (a ++ brk :: b) errors
    = (check_stmts a errors ++ check_stmts b [])%list.
Proof.
  intros Hb. unfold check_stmts.
  rewrite scan_app.
  change (scan (brk :: b) (scan a (Last_new, errors)))
    with (scan b (visit_stmt (scan a (Last_new, errors)) brk)).
  destruct (scan a (Last_new, errors)) as [last errs].
  unfold visit_stmt. rewrite Hb. cbn [snd].
  now rewrite scan_errors.
Qed.

(** C1 (as amended).  For a run of [k] append calls on one non-empty
    receiver that cannot be extended to the left and is entered with no
    Diagnostic emitted since the last statement that is not an append
    call (so, whenever it starts the block or follows such a statement):
    reading the run emits exactly one Diagnostic, with code 113, if
    [k >= 2] and none if [k = 1]; a statement that is not an append call
    ends the run, and what follows it is read independently. *)
Theorem run_reported_once
    (n : string) (pre : list Statement) (first : Statement)
    (rest : list Statement) (errors : list Errors.Error) :
  n <> "" ->
  appends_on n first = true ->
  forallb (appends_on n) rest = true ->
  run_starts_after n pre ->
  fresh_start pre
  \/ did_error (fst (scan pre (Last_new, errors))) = false ->
  check_stmts (pre ++ first :: rest) errors
    = (check_stmts pre errors
       ++ (if (2 <=? List.length (first :: rest))%nat
           then [ErrorUseListExtend (Nodes.line first) (Nodes.column first)]
           else []))%list
  /\ Errors.code (ErrorUseListExtend (Nodes.line first) (Nodes.column first))
     = 113
  /\ (forall brk post,
        append_receiver brk = None ->
        check_stmts ((pre ++ first :: rest) ++ brk :: post) errors
          = (check_stmts (pre ++ first :: rest) errors
             ++ check_stmts post [])%list).
Proof.
  intros Hn Hf Hr Hpre Hentry.
  split; [|split; [reflexivity|]].
  - pose proof (entry_name n pre errors Hn Hpre) as Hname.
    assert (Hdid : did_error (fst (scan pre (Last_new, errors))) = false).
    { destruct Hentry as [H|H]; [|exact H].
      now rewrite (entry_fresh pre errors H). }
    unfold check_stmts. rewrite scan_app.
    destruct (scan pre (Last_new, errors)) as [last errs].
    cbn [fst snd] in *.
    destruct rest as [|second rest].
    + cbn [List.length Nat.leb]. rewrite app_nil_r.
      unfold appends_on in Hf.
      change (scan [first] (last, errs)) with (visit_stmt (last, errs) first).
      unfold visit_stmt.
      destruct (append_receiver first) as [m|]; [|discriminate].
      apply String.eqb_eq in Hf. subst m.
      assert ((n =? name last)%string = false) as ->
        by (apply String.eqb_neq; congruence).
      now rewrite andb_false_r.
    + rewrite (scan_run n first (second :: rest) last errs)
        by (auto; discriminate).
      now rewrite Hdid.
  - intros brk post Hb. now apply check_stmts_break.
Qed.

Lemma run_reported_once_witness :
  check_stmts ([append_call "y" 1 0; OtherStmt 2 0]
               ++ [append_call "x" 3 0; append_call "x" 4 0;
                   append_call "x" 5 0]) []
    = (check_stmts [append_call "y" 1 0; OtherStmt 2 0] []
       ++ (if (2 <=? List.length [append_call "x" 3 0; append_call "x" 4 0;
                                  append_call "x" 5 0])%nat
           then [ErrorUseListExtend 3 0]
           else []))%list
  /\ Errors.code (ErrorUseListExtend 3 0) = 113
  /\ (forall brk post,
        append_receiver brk = None ->
        check_stmts (([append_call "y" 1 0; OtherStmt 2 0]
                      ++ [append_call "x" 3 0; append_call "x" 4 0;
                          append_call "x" 5 0]) ++ brk :: post) []
          = (check_stmts ([append_call "y" 1 0; OtherStmt 2 0]
                          ++ [append_call "x" 3 0; append_call "x" 4 0;
                              append_call "x" 5 0]) []
             ++ check_stmts post [])%list).
Proof.
  apply (run_reported_once "x" [append_call "y" 1 0; OtherStmt 2 0]
           (append_call "x" 3 0)
           [append_call "x" 4 0; append_call "x" 5 0] []).
  - discriminate.
  - reflexivity.
  - reflexivity.
  - reflexivity.
  - left. reflexivity.
Defined.

(** C1 (as stated) fails in two ways.  A single append call on a receiver
    whose identifier is the empty string is a run of [k = 1], and gets a
    Diagnostic.  On the block
    [x.append(1); x.append(2); y.append(3); y.append(4)] there are two
    maximal runs of two calls, and only the run on [x] is reported:
    [did_error] stays set when the receiver changes. *)
Lemma run_rule_fails :
  (check_stmts [append_call "" 5 4] [] = [ErrorUseListExtend 0 0]
   /\ spec_diagnostic_count [append_call "" 5 4] = 0%nat)
  /\ (let block := [append_call "x" 1 0; append_call "x" 2 0;
                    append_call "y" 3 0; append_call "y" 4 0] in
      check_stmts block [] = [ErrorUseListExtend 1 0]
      /\ spec_diagnostic_count block = 2%nat).
Proof. repeat split. Qed.

(** C2 (as amended).  For a run of [k >= 2] append calls on one non-empty
    receiver that cannot be extended to the left, the Diagnostics emitted
    while the run is read are at most one, located at the run's first
    statement whatever [k] is; it is emitted whenever the run starts the
    block or follows a statement that is not an append call. *)
Theorem run_diagnostic_at_first_statement
    (n : string) (pre : list Statement) (first : Statement)
    (rest post : list Statement) (errors : list Errors.Error) :
  n <> "" ->
  appends_on n first = true ->
  forallb (appends_on n) rest = true ->
  rest <> [] ->
  run_starts_after n pre ->
  exists mid after,
    check_stmts (pre ++ first :: rest) errors
      = (check_stmts pre errors ++ mid)%list
    /\ check_stmts (pre ++ (first :: rest) ++ post) errors
      = (check_stmts pre errors ++ mid ++ after)%list
    /\ (mid = []
        \/ mid = [ErrorUseListExtend (Nodes.line first) (Nodes.column first)])
    /\ (fresh_start pre ->
        mid = [ErrorUseListExtend (Nodes.line first) (Nodes.column first)]).
Proof.
  intros Hn Hf Hr Hne Hpre.
  pose proof (entry_name n pre errors Hn Hpre) as Hname.
  pose proof (entry_fresh pre errors) as Hfresh.
  unfold check_stmts.
  rewrite app_assoc, !scan_app.
  destruct (scan pre (Last_new, errors)) as [last errs] eqn:Hscan.
  cbn [fst snd] in *.
  pose proof (scan_run n first rest last errs Hf Hr Hne Hname) as Hrun.
  destruct (scan (first :: rest) (last, errs)) as [last' errs'] eqn:Hscan'.
  cbn [snd] in Hrun.
  destruct (scan_extends post last' errs') as [after Hafter].
  rewrite Hafter.
  exists (if did_error last then []
          else [ErrorUseListExtend (Nodes.line first) (Nodes.column first)]).
  exists after.
  repeat split.
  - rewrite Hrun. destruct (did_error last); [now rewrite app_nil_r|easy].
  - rewrite Hrun, app_assoc.
    destruct (did_error last); [now rewrite app_nil_r|easy].
  - destruct (did_error last); auto.
  - intros H. rewrite (Hfresh H). reflexivity.
Qed.

Lemma run_diagnostic_at_first_statement_witness :
  exists mid after,
    check_stmts ([OtherStmt 1 0]
                 ++ [append_call "x" 2 4; append_call "x" 3 4;
                     append_call "x" 4 4]) []
      = (check_stmts [OtherStmt 1 0] [] ++ mid)%list
    /\ check_stmts ([OtherStmt 1 0]
                    ++ [append_call "x" 2 4; append_call "x" 3 4;
                        append_call "x" 4 4]
                    ++ [OtherStmt 5 0]) []
      = (check_stmts [OtherStmt 1 0] [] ++ mid ++ after)%list
    /\ (mid = [] \/ mid = [ErrorUseListExtend 2 4])
    /\ (fresh_start [OtherStmt 1 0] -> mid = [ErrorUseListExtend 2 4]).
Proof.
  apply (run_diagnostic_at_first_statement "x" [OtherStmt 1 0]
           (append_call "x" 2 4)
           [append_call "x" 3 4; append_call "x" 4 4]
           [OtherStmt 5 0] []).
  - discriminate.
  - reflexivity.
  - reflexivity.
  - discriminate.
  - reflexivity.
Defined.

(** C2 (as stated) fails where the receiver's identifier is the empty
    string: a run of two such calls at lines 5 and 6 gets its single
    Diagnostic at line 0, column 0, not at the run's first statement. *)
Lemma run_diagnostic_not_at_first_statement :
  check_stmts [append_call "" 5 4; append_call "" 6 4] []
    = [ErrorUseListExtend 0 0]
  /\ ErrorUseListExtend 0 0 <> ErrorUseListExtend 5 4.
Proof. split; [reflexivity|discriminate]. Qed.

(** C10.  When the first statement of a block is an append call on a
    receiver whose identifier is the empty string, [check_stmts] emits a
    Diagnostic with code 113 at line 0, column 0 for it, and the calls on
    that receiver that follow emit nothing more. *)
Theorem empty_receiver_reported_at_origin
    (first : Statement) (rest : list Statement)
    (errors : list Errors.Error) :
  append_receiver first = Some "" ->
  Errors.code (ErrorUseListExtend 0 0) = 113
  /\ (exists after,
        check_stmts (first :: rest) errors
          = (errors ++ ErrorUseListExtend 0 0 :: after)%list)
  /\ (forallb (appends_on "") rest = true ->
      check_stmts (first :: rest) errors
        = (errors ++ [ErrorUseListExtend 0 0])%list).
Proof.
  intros Hf. split; [reflexivity|].
  unfold check_stmts.
  change (scan (first :: rest) (Last_new, errors))
    with (scan rest (visit_stmt (Last_new, errors) first)).
  unfold visit_stmt. rewrite Hf. cbn.
  split.
  - match goal with |- context [scan rest (?l, ?e)] =>
      destruct (scan_extends rest l e) as [after Hafter] end.
    rewrite Hafter, <- app_assoc. now exists after.
  - intros Hr. now apply scan_reported with (n := "").
Qed.

Lemma empty_receiver_reported_at_origin_witness :
  Errors.code (ErrorUseListExtend 0 0) = 113
  /\ (exists after,
        check_stmts [append_call "" 7 2; append_call "" 8 2] []
          = ([] ++ ErrorUseListExtend 0 0 :: after)%list)
  /\ (forallb (appends_on "") [append_call "" 8 2] = true ->
      check_stmts [append_call "" 7 2; append_call "" 8 2] []
        = ([] ++ [ErrorUseListExtend 0 0])%list).
Proof.
  apply (empty_receiver_reported_at_origin (append_call "" 7 2)
           [append_call "" 8 2] []).
  reflexivity.
Defined.

End ListExtendFacts.

(** * Properties of the matcher *)

Section ReFacts.
Import Re.

(** Split every hypothesis [a && b = true]. *)
Ltac split_andb :=
  repeat match goal with
         | H : (_ && _)%bool = true |- _ =>
             let H1 := fresh H in
             apply andb_true_iff in H as [H1 H]
         end.

Lemma strip_spec (lit s rest : string) :
  strip lit s = Some rest <-> s = lit ++ rest.
Proof.
  revert s. induction lit as [|a lit IH]; intros s; simpl.
  - split; [now intros [= ->]|now intros ->].
  - destruct s as [|b s].
    + split; discriminate.
    + destruct (Ascii.eqb_spec a b) as [->|Hab].
      * rewrite IH. split; [now intros ->|now intros [= ->]].
      * split; [discriminate|]. intros [= E _]. now elim Hab.
Qed.

Lemma append_assoc (a b c : string) : (a ++ b) ++ c = a ++ b ++ c.
Proof. induction a; simpl; congruence. Qed.

Lemma append_nil_r (a : string) : a ++ "" = a.
Proof. induction a; simpl; congruence. Qed.

Lemma length_append (a b : string) :
  String.length (a ++ b) = (String.length a + String.length b)%nat.
Proof. induction a; simpl; congruence. Qed.

Lemma consumed_append (w rest : string) : consumed (w ++ rest) rest = w.
Proof.
  unfold consumed. rewrite length_append.
  replace (String.length w + String.length rest - String.length rest)%nat
    with (String.length w) by lia.
  induction w as [|c w IH]; simpl.
  - now destruct rest.
  - now rewrite IH.
Qed.

Section Sound.
Context {R : Type}.

Lemma rep_exact_sound cls n : forall s (k : string -> option R) res,
  rep_exact cls n s k = Some res ->
  exists w rest,
    s = w ++ rest /\ String.length w = n /\ all cls w = true
    /\ k rest = Some res.
Proof.
  induction n as [|n IH]; intros s k res H; simpl in H.
  - now exists "", s.
  - destruct s as [|c s]; [discriminate|].
    destruct (cls c) eqn:Hc; [|discriminate].
    apply IH in H as (w & rest & -> & Hlen & Hall & Hk).
    exists (String c w), rest. simpl. rewrite Hc, Hall, Hlen. auto.
Qed.

Lemma rep_upto_sound cls n : forall s (k : string -> option R) res,
  rep_upto cls n s k = Some res ->
  exists w rest,
    s = w ++ rest /\ (String.length w <= n)%nat /\ all cls w = true
    /\ k rest = Some res.
Proof.
  induction n as [|n IH]; intros s k res H.
  - exists "", s. destruct s; simpl in *; auto.
  - destruct s as [|c s]; simpl in H.
    + exists "", "". simpl. repeat split; auto. lia.
    + destruct (cls c) eqn:Hc.
      * destruct (rep_upto cls n s k) as [r|] eqn:Hr.
        -- injection H as ->.
           apply IH in Hr as (w & rest & -> & Hlen & Hall & Hk).
           exists (String c w), rest. simpl. rewrite Hc, Hall.
           repeat split; auto. lia.
        -- exists "", (String c s). simpl. repeat split; auto. lia.
      * exists "", (String c s). simpl. repeat split; auto. lia.
Qed.

(** Every answer of the matcher comes from a match of the pattern. *)
Lemma rmatch_sound (r : regex) :
  forall s g (k : string -> option string -> option R) res,
    rmatch r s g k = Some res ->
    exists w rest g',
      s = w ++ rest /\ den r w rest g g' /\ k rest g' = Some res.
Proof.
  induction r as [l|cls lo hi|r1 IH1 r2 IH2|r1 IH1|];
    intros s g k res H; simpl in H.
  - destruct (strip l s) as [rest|] eqn:Hs; [|discriminate].
    apply strip_spec in Hs. exists l, rest, g. simpl. auto.
  - apply rep_exact_sound in H as (w1 & s1 & -> & Hl1 & Ha1 & H).
    apply rep_upto_sound in H as (w2 & rest & -> & Hl2 & Ha2 & H).
    exists (w1 ++ w2), rest, g. rewrite append_assoc. simpl.
    repeat split; auto.
    + rewrite length_append. lia.
    + rewrite length_append. lia.
    + clear -Ha1 Ha2. induction w1 as [|c w1 IH]; simpl in *; auto.
      apply andb_true_iff in Ha1 as [-> Ha1]. simpl. auto.
  - apply IH1 in H as (w1 & s1 & g1 & -> & Hd1 & H).
    apply IH2 in H as (w2 & rest & g2 & -> & Hd2 & H).
    exists (w1 ++ w2), rest, g2. rewrite append_assoc. simpl.
    split; auto. split; auto. now exists w1, w2, g1.
  - destruct (rmatch r1 s g _) as [r|] eqn:Hr.
    + injection H as ->.
      apply IH1 in Hr as (w & rest & g1 & -> & Hd & H).
      rewrite consumed_append in H.
      exists w, rest, (Some w). simpl. split; auto. split; auto.
      right. now exists g1.
    + exists "", s, g. simpl. auto.
  - destruct (at_eol s) eqn:He; [|discriminate].
    exists "", s, g. simpl. auto.
Qed.
End Sound.

Lemma at_eol_spec (s : string) :
  at_eol s = true <-> s = "" \/ s = Py.newline.
Proof.
  unfold Py.newline.
  destruct s as [|c [|d s]]; simpl.
  - tauto.
  - destruct (Ascii.eqb_spec c "010"%char) as [->|Hc].
    + tauto.
    + split; [discriminate|]. intros [H|H]; [discriminate|].
      injection H as H. now elim Hc.
  - split; [discriminate|]. intros [H|H]; discriminate.
Qed.

(** The subjects on which the suppression pattern matches at the start. *)
Lemma noqa_shape (s : string) (g : option string) :
  match_at Main.noqa s = Some g ->
  exists eol,
    (eol = "" \/ eol = Py.newline)
    /\ ((g = None /\ s = "# noqa" ++ eol)
        \/ (exists L D,
              g = Some (": " ++ L ++ D)
              /\ s = "# noqa: " ++ L ++ D ++ eol
              /\ (3 <= String.length L <= 4)%nat /\ all upper L = true
              /\ String.length D = 3%nat /\ all digit D = true)).
Proof.
  unfold match_at. intros H.
  apply rmatch_sound in H as (w & rest & g' & -> & Hd & [= ->]).
  simpl in Hd.
  destruct Hd as (w1 & w2 & g1 & -> & [-> ->] & Hd).
  destruct Hd as (w3 & w4 & g2 & -> & Hopt & -> & Heol & ->).
  apply at_eol_spec in Heol. simpl in Heol.
  exists rest. split; [exact Heol|].
  rewrite append_nil_r.
  destruct Hopt as [[-> ->]|(gm & Hg & ->)].
  - left. auto.
  - right.
    destruct Hg as (u1 & u2 & g3 & -> & [-> ->] & Hg).
    destruct Hg as (L & D & g4 & -> & (HL & HLu & ->) & HD & HDd & _).
    exists L, D. rewrite !append_assoc. simpl.
    repeat split; auto; simpl in *; lia.
Qed.

Lemma last_char_append (a b : string) :
  b <> "" -> last_char (a ++ b) = last_char b.
Proof.
  intros Hb. induction a as [|c a IH]; [reflexivity|].
  simpl. rewrite IH.
  destruct (a ++ b) eqn:E; [|reflexivity].
  destruct a; simpl in E; [now elim Hb|discriminate].
Qed.

Lemma last_char_none (s : string) : last_char s = None -> s = "".
Proof.
  induction s as [|c s IH]; [reflexivity|].
  simpl. destruct s; [discriminate|].
  intros H. apply IH in H. discriminate.
Qed.

Lemma last_char_all (cls : ascii -> bool) (s : string) (c : ascii) :
  all cls s = true -> last_char s = Some c -> cls c = true.
Proof.
  induction s as [|d s IH]; [discriminate|].
  simpl. intros H. apply andb_true_iff in H as [Hd Hs].
  destruct s; [now intros [= <-]|]. now apply IH.
Qed.

(** A match carries a code tag only on a subject that ends with a digit,
    or with a digit and a newline. *)
Lemma noqa_tag_last (s : string) (ig : string) (c : ascii) :
  match_at Main.noqa s = Some (Some ig) ->
  last_char s = Some c ->
  digit c = true \/ c = "010"%char.
Proof.
  intros H Hc.
  apply noqa_shape in H as (eol & Heol & [[? _]|H]); [discriminate|].
  destruct H as (L & D & _ & -> & _ & _ & HD & HDd).
  destruct D as [|d1 [|d2 [|d3 [|]]]]; try discriminate.
  rewrite <- (append_assoc "# noqa: " L) in Hc.
  rewrite last_char_append in Hc by (simpl; discriminate).
  destruct Heol as [-> | ->]; simpl in Hc; injection Hc as <-.
  - left. simpl in HDd. apply andb_true_iff in HDd as [_ HDd].
    apply andb_true_iff in HDd as [_ HDd].
    now apply andb_true_iff in HDd as [HDd _].
  - now right.
Qed.

(** A match ends with [a] or a digit, possibly followed by a newline. *)
Lemma noqa_last (s : string) (g : option string) :
  match_at Main.noqa s = Some g ->
  exists c, last_char s = Some c
            /\ (c = "a"%char \/ digit c = true \/ c = "010"%char).
Proof.
  intros H.
  destruct g as [ig|].
  - destruct (last_char s) as [c|] eqn:Hc.
    + exists c. split; auto.
      destruct (noqa_tag_last s ig c H Hc); auto.
    + apply noqa_shape in H as (eol & _ & [[? _]|H]); [discriminate|].
      destruct H as (L & D & _ & -> & _ & _ & HD & _).
      destruct D as [|d1 D]; [discriminate|].
      rewrite <- (append_assoc "# noqa: " L) in Hc.
      rewrite last_char_append in Hc by (simpl; discriminate).
      now apply last_char_none in Hc.
  - apply noqa_shape in H as (eol & Heol & [[_ ->]|H]).
    + destruct Heol as [-> | ->]; simpl.
      * exists "a"%char. auto.
      * exists "010"%char. auto.
    + destruct H as (L & D & ? & _). discriminate.
Qed.

Lemma search_sound (r : regex) (s : string) (g : option string) :
  search r s = Some g ->
  exists p t, s = p ++ t /\ match_at r t = Some g.
Proof.
  induction s as [|c s IH]; simpl.
  - destruct (match_at r "") eqn:E; [|discriminate].
    intros [= ->]. now exists "", "".
  - destruct (match_at r (String c s)) eqn:E.
    + intros [= ->]. now exists "", (String c s).
    + intros H. apply IH in H as (p & t & -> & H).
      now exists (String c p), t.
Qed.

Lemma search_cons (r : regex) (c : ascii) (s : string) :
  search r (String c s) =
    match match_at r (String c s) with
    | Some m => Some m
    | None => search r s
    end.
Proof. reflexivity. Qed.

Lemma digit_not_upper (c : ascii) : digit c = true -> upper c = false.
Proof.
  unfold digit, upper. intros H.
  apply andb_true_iff in H as [_ H]. apply N.leb_le in H.
  apply andb_false_iff. left. apply N.leb_gt. lia.
Qed.

(** On a line that ends with the bare marker, the search succeeds and
    group 1 takes no part. *)
Lemma search_bare (pre : string) :
  search Main.noqa (pre ++ "# noqa") = Some None.
Proof.
  induction pre as [|c pre IH]; [reflexivity|].
  change (String c pre ++ "# noqa") with (String c (pre ++ "# noqa")).
  rewrite search_cons.
  destruct (match_at Main.noqa (String c (pre ++ "# noqa")))
    as [[ig|]|] eqn:E; auto.
  exfalso.
  assert (Hl : last_char (String c pre ++ "# noqa") = Some "a"%char).
  { now rewrite last_char_append by discriminate. }
  destruct (noqa_tag_last _ ig "a"%char E Hl) as [H|H]; discriminate.
Qed.

(** A line whose last character is not [a], a digit or a newline has no
    match at all. *)
Lemma search_last (s : string) (g : option string) :
  search Main.noqa s = Some g ->
  exists c, last_char s = Some c
            /\ (c = "a"%char \/ digit c = true \/ c = "010"%char).
Proof.
  intros H. apply search_sound in H as (p & t & -> & H).
  apply noqa_last in H as (c & Hc & H).
  exists c. split; auto.
  rewrite last_char_append; auto.
  intros ->. discriminate.
Qed.

Lemma match_tagged (L D : string) :
  (String.length L = 3 \/ String.length L = 4)%nat ->
  all upper L = true ->
  String.length D = 3%nat ->
  all digit D = true ->
  match_at Main.noqa ("# noqa: " ++ L ++ D) = Some (Some (": " ++ L ++ D)).
Proof.
  intros HL HLu HD HDd.
  destruct D as [|d1 [|d2 [|d3 [|]]]]; try discriminate.
  destruct L as [|l1 [|l2 [|l3 [|l4 [|]]]]];
    try (destruct HL; discriminate);
    simpl in HLu, HDd; split_andb; unfold match_at; cbn.
  - (* three letters: the greedy fourth step sees a digit and gives up *)
    rewrite (digit_not_upper d1) by assumption.
    repeat match goal with H : _ = true |- _ => rewrite H; clear H end.
    reflexivity.
  - repeat match goal with H : _ = true |- _ => rewrite H; clear H end.
    reflexivity.
Qed.

(** On a line that ends with the marker and a code tag, the search finds
    that tag: no earlier position matches. *)
Lemma search_tagged (pre L D : string) :
  (String.length L = 3 \/ String.length L = 4)%nat ->
  all upper L = true ->
  String.length D = 3%nat ->
  all digit D = true ->
  search Main.noqa (pre ++ "# noqa: " ++ L ++ D)
    = Some (Some (": " ++ L ++ D)).
Proof.
  intros HL HLu HD HDd.
  induction pre as [|c pre IH].
  - change ("" ++ "# noqa: " ++ L ++ D) with ("# noqa: " ++ L ++ D).
    destruct L as [|l1 L']; [destruct HL; discriminate|].
    change ("# noqa: " ++ String l1 L' ++ D)
      with (String "#" (" noqa: " ++ String l1 L' ++ D)).
    rewrite search_cons.
    change (String "#" (" noqa: " ++ String l1 L' ++ D))
      with ("# noqa: " ++ String l1 L' ++ D).
    now rewrite match_tagged.
  - change (String c pre ++ "# noqa: " ++ L ++ D)
      with (String c (pre ++ "# noqa: " ++ L ++ D)).
    rewrite search_cons.
    destruct (match_at Main.noqa (String c (pre ++ "# noqa: " ++ L ++ D)))
      as [g|] eqn:E; [exfalso|exact IH].
    assert (Hlast : exists d, last_char (String c (pre ++ "# noqa: " ++ L ++ D))
                              = Some d /\ digit d = true).
    { destruct D as [|d1 [|d2 [|d3 [|]]]]; try discriminate.
      exists d3. split.
      - change (String c (pre ++ "# noqa: " ++ L ++ String d1 (String d2 (String d3 ""))))
          with (String c pre ++ "# noqa: " ++ (L ++ String d1 (String d2 (String d3 "")))).
        rewrite <- (append_assoc "# noqa: " L).
        rewrite <- (append_assoc (String c pre)).
        now rewrite last_char_append by discriminate.
      - simpl in HDd.
        apply andb_true_iff in HDd as [_ HDd].
        apply andb_true_iff in HDd as [_ HDd].
        now apply andb_true_iff in HDd as [HDd _]. }
    destruct Hlast as (d & Hlast & Hd).
    assert (Hlen : String.length (String c (pre ++ "# noqa: " ++ L ++ D))
                   = (String.length pre + String.length L + 12)%nat).
    { simpl. rewrite !length_append. simpl. rewrite !length_append. lia. }
    apply noqa_shape in E as (eol & Heol & [[_ E]|E]).
    + rewrite E in Hlast.
      destruct Heol as [-> | ->]; simpl in Hlast; injection Hlast as <-;
        discriminate.
    + destruct E as (L2 & D2 & _ & E & HL2 & _ & HD2 & HD2d).
      destruct Heol as [-> | ->].
      * rewrite E, append_nil_r, !length_append in Hlen. simpl in Hlen.
        assert (pre = "") as -> by (destruct pre; [auto|simpl in Hlen; lia]).
        simpl in E. injection E as _ E. discriminate.
      * rewrite E in Hlast.
        rewrite <- (append_assoc "# noqa: " L2) in Hlast.
        rewrite <- (append_assoc ("# noqa: " ++ L2) D2) in Hlast.
        rewrite last_char_append in Hlast by discriminate.
        injection Hlast as <-. discriminate.
Qed.

End ReFacts.

(** * Properties of the suppression filter *)

Section SuppressionFacts.
Import Py Main.

Lemma ignored_unfold (env : Env) (e : Errors.Error) (file : string)
    (lines : list string) (text : string) :
  Errors.filename e = Some file ->
  file <> "" ->
  get_source_lines env file = Ok lines ->
  index lines (Errors.line e - 1) = Ok text ->
  ignored_via_comment env (Diag e) =
    match Re.search noqa text with
    | Some (Some (String a ig)) =>
        Ok (drop 2 (String a ig) =? Errors.error_code_str e)%string
    | Some _ => Ok true
    | None => Ok false
    end.
Proof.
  intros Hf Hne Hg Hi. unfold ignored_via_comment.
  rewrite Hf. destruct file as [|c file]; [contradiction|].
  rewrite Hg. cbn [bind]. rewrite Hi. cbn [bind].
  destruct (Re.search noqa text) as [[[|a ig]|]|]; auto.
  now destruct (drop 2 (String a ig) =? Errors.error_code_str e)%string.
Qed.

(** C3 (as amended).  For a Diagnostic with a set file name, whose file
    was read, a source line that ends with the literal [# noqa]
    suppresses it; trailing whitespace is not ignored: a line whose last
    character is a space or a tab suppresses nothing. *)
Theorem bare_noqa_suppresses
    (env : Env) (e : Errors.Error) (file : string) (lines : list string)
    (text : string) :
  Errors.filename e = Some file ->
  file <> "" ->
  get_source_lines env file = Ok lines ->
  index lines (Errors.line e - 1) = Ok text ->
  (forall pre, text = pre ++ "# noqa" ->
     ignored_via_comment env (Diag e) = Ok true)
  /\ (forall c, Re.last_char text = Some c ->
       c = " "%char \/ c = "009"%char ->
       ignored_via_comment env (Diag e) = Ok false).
Proof.
  intros Hf Hne Hg Hi.
  rewrite (ignored_unfold env e file lines text Hf Hne Hg Hi).
  split.
  - intros pre ->. now rewrite search_bare.
  - intros c Hc Hws.
    destruct (Re.search noqa text) as [g|] eqn:E; [exfalso|reflexivity].
    apply search_last in E as (d & Hd & H).
    rewrite Hc in Hd. injection Hd as <-.
    destruct Hws as [-> | ->]; destruct H as [H|[H|H]]; discriminate.
Qed.

Lemma bare_noqa_suppresses_witness :
  (forall pre, "nums.append(4)  # noqa" = pre ++ "# noqa" ->
     ignored_via_comment (Demo.env Demo.a_py (fun _ => []) None)
       (Diag (Demo.furb113 1)) = Ok true)
  /\ (forall c, Re.last_char "nums.append(4)  # noqa" = Some c ->
       c = " "%char \/ c = "009"%char ->
       ignored_via_comment (Demo.env Demo.a_py (fun _ => []) None)
         (Diag (Demo.furb113 1)) = Ok false).
Proof.
  apply (bare_noqa_suppresses (Demo.env Demo.a_py (fun _ => []) None)
           (Demo.furb113 1) "a.py" Demo.a_py_lines
           "nums.append(4)  # noqa").
  - reflexivity.
  - discriminate.
  - reflexivity.
  - reflexivity.
Defined.

(** C3 (as stated) fails: line 2 of [a.py] ends with [# noqa] followed by
    a space, and a Diagnostic on it is kept. *)
Lemma trailing_space_not_suppressed :
  Demo.a_py "a.py" = Ok Demo.a_py_lines
  /\ index Demo.a_py_lines (2 - 1) = Ok "nums.append(5)  # noqa "
  /\ ignored_via_comment (Demo.env Demo.a_py (fun _ => []) None)
       (Diag (Demo.furb113 2)) = Ok false.
Proof. repeat split. Qed.

(** C4.  For a Diagnostic with a set file name, in a file that was read,
    whose source line ends with [# noqa: ] and a tag of 3 or 4 uppercase
    letters and 3 digits, the Diagnostic is suppressed exactly when the
    tag is its rendered prefix and code. *)
Theorem tagged_noqa_suppresses_matching
    (env : Env) (e : Errors.Error) (file : string) (lines : list string)
    (text pre L D : string) :
  Errors.filename e = Some file ->
  file <> "" ->
  get_source_lines env file = Ok lines ->
  index lines (Errors.line e - 1) = Ok text ->
  text = pre ++ "# noqa: " ++ L ++ D ->
  (String.length L = 3 \/ String.length L = 4)%nat ->
  Re.all Re.upper L = true ->
  String.length D = 3%nat ->
  Re.all Re.digit D = true ->
  ignored_via_comment env (Diag e)
    = Ok (L ++ D =? Errors.error_code_str e)%string
  /\ (ignored_via_comment env (Diag e) = Ok true
      <-> L ++ D = Errors.error_code_str e).
Proof.
  intros Hf Hne Hg Hi -> HL HLu HD HDd.
  rewrite (ignored_unfold env e file lines _ Hf Hne Hg Hi).
  rewrite search_tagged by assumption.
  cbn [append drop].
  split; [reflexivity|].
  rewrite <- String.eqb_eq.
  split; [now intros [= ->]|now intros ->].
Qed.

Lemma tagged_noqa_suppresses_matching_witness :
  ignored_via_comment (Demo.env Demo.a_py (fun _ => []) None)
    (Diag (Demo.furb113 3))
    = Ok ("FURB" ++ "113" =? Errors.error_code_str (Demo.furb113 3))%string
  /\ (ignored_via_comment (Demo.env Demo.a_py (fun _ => []) None)
        (Diag (Demo.furb113 3)) = Ok true
      <-> "FURB" ++ "113" = Errors.error_code_str (Demo.furb113 3)).
Proof.
  apply (tagged_noqa_suppresses_matching
           (Demo.env Demo.a_py (fun _ => []) None) (Demo.furb113 3)
           "a.py" Demo.a_py_lines
           "nums.append(6)  # noqa: FURB113" "nums.append(6)  "
           "FURB" "113").
  - reflexivity.
  - discriminate.
  - reflexivity.
  - reflexivity.
  - reflexivity.
  - right. reflexivity.
  - reflexivity.
  - reflexivity.
  - reflexivity.
Defined.

Lemma index_in_range {A : Type} (l : list A) (i : Z) :
  0 <= i < Z.of_nat (List.length l) -> exists x, index l i = Ok x.
Proof.
  intros H. unfold index.
  destruct (Z.ltb_spec i 0) as [?|_]; [lia|].
  destruct (Z.leb_spec 0 i) as [_|?]; [|lia].
  destruct (Z.ltb_spec i (Z.of_nat (List.length l))) as [_|?]; [|lia].
  cbn [andb].
  destruct (nth_error l (Z.to_nat i)) as [x|] eqn:E; [now exists x|].
  apply nth_error_None in E. lia.
Qed.

Lemma index_past_end {A : Type} (l : list A) (i : Z) :
  Z.of_nat (List.length l) <= i -> index l i = Raise IndexError.
Proof.
  intros H. unfold index.
  destruct (Z.ltb_spec i 0) as [?|_]; [lia|].
  destruct (Z.ltb_spec i (Z.of_nat (List.length l))) as [?|_]; [lia|].
  now rewrite andb_false_r.
Qed.

Lemma index_minus_one {A : Type} (l : list A) (d : A) :
  l <> [] ->
  index l (-1) = Ok (last l d)
  /\ index l (-1) = index l (Z.of_nat (List.length l) - 1).
Proof.
  intros Hl.
  destruct (exists_last Hl) as (l' & x & ->).
  rewrite last_last. unfold index. rewrite length_app. cbn [List.length].
  replace (Z.of_nat (List.length l' + 1)) with (Z.of_nat (List.length l') + 1)
    by lia.
  change (-1 <? 0) with true. cbn iota.
  destruct (Z.ltb_spec (Z.of_nat (List.length l') + 1 - 1) 0) as [?|_]; [lia|].
  replace (-1 + (Z.of_nat (List.length l') + 1)) with (Z.of_nat (List.length l'))
    by lia.
  replace (Z.of_nat (List.length l') + 1 - 1) with (Z.of_nat (List.length l'))
    by lia.
  destruct (Z.leb_spec 0 (Z.of_nat (List.length l'))) as [_|?]; [|lia].
  destruct (Z.ltb_spec (Z.of_nat (List.length l'))
              (Z.of_nat (List.length l') + 1)) as [_|?]; [|lia].
  cbn [andb]. rewrite Nat2Z.id.
  rewrite nth_error_app2, Nat.sub_diag by lia. auto.
Qed.

(** C9.  For a Diagnostic with a set file name, in a file whose lines
    were read, [ignored_via_comment] returns when
    [1 <= line <= number of lines]; the lookup raises [IndexError] when
    the line is past the end of the file; and at line 0 of a file that
    has lines, it does not raise but reads the last line, as it would for
    the Diagnostic at that last line (a file without lines has no last
    line, and the lookup raises there too). *)
Theorem line_lookup_unchecked
    (env : Env) (e : Errors.Error) (file : string) (lines : list string) :
  Errors.filename e = Some file ->
  file <> "" ->
  get_source_lines env file = Ok lines ->
  let n := Z.of_nat (List.length lines) in
  (1 <= Errors.line e <= n ->
     exists b, ignored_via_comment env (Diag e) = Ok b)
  /\ (n < Errors.line e ->
      index lines (Errors.line e - 1) = Raise IndexError
      /\ ignored_via_comment env (Diag e) = Raise IndexError)
  /\ (Errors.line e = 0 -> lines <> [] ->
      index lines (Errors.line e - 1) = Ok (last lines "")
      /\ ignored_via_comment env (Diag e)
         = ignored_via_comment env (Diag (Errors.at_line e n)))
  /\ (Errors.line e = 0 -> lines = [] ->
      ignored_via_comment env (Diag e) = Raise IndexError).
Proof.
  intros Hf Hne Hg n. subst n.
  repeat split.
  - intros H.
    destruct (index_in_range lines (Errors.line e - 1))
      as [text Ht]; [lia|].
    rewrite (ignored_unfold env e file lines text Hf Hne Hg Ht).
    destruct (Re.search noqa text) as [[[|a ig]|]|]; eauto.
  - apply index_past_end. lia.
  - unfold ignored_via_comment. rewrite Hf.
    destruct file; [contradiction|].
    rewrite Hg. cbn [bind].
    rewrite index_past_end by lia. reflexivity.
  - rewrite H. now apply index_minus_one.
  - unfold ignored_via_comment. cbn [Errors.at_line Errors.filename Errors.line].
    rewrite Hf. destruct file; [contradiction|].
    rewrite Hg. cbn [bind].
    rewrite H. change (0 - 1) with (-1).
    destruct (index_minus_one lines "" H0) as [_ ->].
    reflexivity.
  - intros Hline Hempty. unfold ignored_via_comment. rewrite Hf.
    destruct file; [contradiction|].
    rewrite Hg, Hline, Hempty. reflexivity.
Qed.

Lemma line_lookup_unchecked_witness :
  let e := Demo.furb113 0 in
  let lines := Demo.a_py_lines in
  let n := Z.of_nat (List.length lines) in
  let env := Demo.env Demo.a_py (fun _ => []) None in
  (1 <= Errors.line e <= n ->
     exists b, ignored_via_comment env (Diag e) = Ok b)
  /\ (n < Errors.line e ->
      index lines (Errors.line e - 1) = Raise IndexError
      /\ ignored_via_comment env (Diag e) = Raise IndexError)
  /\ (Errors.line e = 0 -> lines <> [] ->
      index lines (Errors.line e - 1) = Ok (last lines "")
      /\ ignored_via_comment env (Diag e)
         = ignored_via_comment env (Diag (Errors.at_line e n)))
  /\ (Errors.line e = 0 -> lines = [] ->
      ignored_via_comment env (Diag e) = Raise IndexError).
Proof.
  apply (line_lookup_unchecked (Demo.env Demo.a_py (fun _ => []) None)
           (Demo.furb113 0) "a.py" Demo.a_py_lines).
  - reflexivity.
  - discriminate.
  - reflexivity.
Defined.

End SuppressionFacts.

(** * Properties of the ordering *)

Section OrderFacts.
Import Py Main.

Lemma val_cmp_eq (a b : val) : val_cmp a b = Eq <-> a = b.
Proof.
  destruct a as [s|x], b as [t|y]; simpl; try (split; discriminate).
  - rewrite OrderedTypeEx.String_as_OT.cmp_eq.
    split; [now intros ->|now intros [= ->]].
  - rewrite Z.compare_eq_iff. split; [now intros ->|now intros [= ->]].
Qed.

Lemma val_cmp_antisym (a b : val) : val_cmp b a = CompOpp (val_cmp a b).
Proof.
  destruct a as [s|x], b as [t|y]; simpl; auto.
  - apply String.compare_antisym.
  - apply Z.compare_antisym.
Qed.

Lemma val_cmp_trans (a b c : val) :
  val_cmp a b = Lt -> val_cmp b c = Lt -> val_cmp a c = Lt.
Proof.
  destruct a as [s|x], b as [t|y], c as [u|z]; simpl; auto;
    try discriminate.
  - intros H1 H2.
    apply OrderedTypeEx.String_as_OT.cmp_lt in H1, H2.
    apply OrderedTypeEx.String_as_OT.cmp_lt.
    eapply OrderedTypeEx.String_as_OT.lt_trans; eassumption.
  - rewrite !Z.compare_lt_iff. lia.
Qed.

Lemma tuple_cmp_eq (a : list val) : forall b, tuple_cmp a b = Eq <-> a = b.
Proof.
  induction a as [|x a IH]; intros [|y b]; simpl;
    try (split; (reflexivity || discriminate)).
  destruct (val_cmp x y) eqn:E.
  - apply val_cmp_eq in E as ->. rewrite IH.
    split; [now intros ->|now intros [= ->]].
  - split; [discriminate|]. intros [= -> _].
    assert (val_cmp y y = Eq) by now apply val_cmp_eq. congruence.
  - split; [discriminate|]. intros [= -> _].
    assert (val_cmp y y = Eq) by now apply val_cmp_eq. congruence.
Qed.

Lemma tuple_cmp_antisym (a : list val) :
  forall b, tuple_cmp b a = CompOpp (tuple_cmp a b).
Proof.
  induction a as [|x a IH]; intros [|y b]; simpl; auto.
  rewrite (val_cmp_antisym x y).
  destruct (val_cmp x y); simpl; auto.
Qed.

Lemma tuple_cmp_trans (a : list val) :
  forall b c, tuple_cmp a b = Lt -> tuple_cmp b c = Lt -> tuple_cmp a c = Lt.
Proof.
  induction a as [|x a IH]; intros [|y b] [|z c]; simpl; auto;
    try discriminate.
  destruct (val_cmp x y) eqn:Exy; try discriminate.
  - apply val_cmp_eq in Exy as ->.
    destruct (val_cmp y z); auto. apply IH.
  - intros _. destruct (val_cmp y z) eqn:Eyz; try discriminate.
    + apply val_cmp_eq in Eyz as <-. now rewrite Exy.
    + now rewrite (val_cmp_trans x y z Exy Eyz).
Qed.

(** On tuples whose items have the same types position by position,
    Python's [<] does not raise and is the lexicographic order. *)
Lemma tuple_lt_same_type (a b : list val) :
  Forall2 same_type a b -> tuple_lt a b = Ok (is_lt (tuple_cmp a b)).
Proof.
  induction 1 as [|x y a b Hxy _ IH]; [reflexivity|].
  simpl.
  destruct x as [s|x], y as [t|y]; simpl in *; try contradiction.
  - destruct (String.eqb_spec s t) as [->|Hne].
    + assert (String.compare t t = Eq) as ->
        by now apply OrderedTypeEx.String_as_OT.cmp_eq.
      exact IH.
    + unfold String.ltb.
      destruct (String.compare s t) eqn:E; auto.
      apply OrderedTypeEx.String_as_OT.cmp_eq in E. contradiction.
  - destruct (Z.eqb_spec x y) as [->|Hne].
    + rewrite Z.compare_refl. exact IH.
    + unfold Z.ltb. destruct (x ?= y) eqn:E; auto.
      apply Z.compare_eq_iff in E. contradiction.
Qed.

(** Among raw messages and Diagnostics that carry a file name, comparing
    sort keys never raises. *)
Lemma sort_errors_lt (a b : item) :
  has_filename a = true -> has_filename b = true ->
  tuple_lt (sort_errors a) (sort_errors b)
    = Ok (is_lt (tuple_cmp (sort_errors a) (sort_errors b))).
Proof.
  intros Ha Hb.
  destruct a as [s|d], b as [t|e].
  - apply tuple_lt_same_type. repeat constructor.
  - simpl in Hb. unfold sort_errors.
    destruct (Errors.filename e) as [[|c f]|]; try discriminate.
    reflexivity.
  - simpl in Ha. unfold sort_errors.
    destruct (Errors.filename d) as [[|c f]|]; try discriminate.
    reflexivity.
  - apply tuple_lt_same_type. repeat constructor.
Qed.

Lemma item_le_trans (a b c : item) :
  item_le a b -> item_le b c -> item_le a c.
Proof.
  unfold item_le. intros Hab Hbc.
  destruct (tuple_cmp (sort_errors a) (sort_errors b)) eqn:E1;
    [|clear Hab|contradiction].
  - apply tuple_cmp_eq in E1. now rewrite E1.
  - destruct (tuple_cmp (sort_errors b) (sort_errors c)) eqn:E2;
      [| |contradiction].
    + apply tuple_cmp_eq in E2. rewrite <- E2, E1. discriminate.
    + rewrite (tuple_cmp_trans _ _ _ E1 E2). discriminate.
Qed.

Lemma item_le_antisym (a b : item) :
  item_le a b -> item_le b a -> sort_errors a = sort_errors b.
Proof.
  unfold item_le. rewrite (tuple_cmp_antisym (sort_errors a) (sort_errors b)).
  intros Hab Hba. apply tuple_cmp_eq.
  destruct (tuple_cmp (sort_errors a) (sort_errors b)); simpl in *; congruence.
Qed.

Lemma not_lt_le (a b : item) :
  is_lt (tuple_cmp (sort_errors a) (sort_errors b)) = false -> item_le b a.
Proof.
  unfold item_le. rewrite (tuple_cmp_antisym (sort_errors a) (sort_errors b)).
  destruct (tuple_cmp (sort_errors a) (sort_errors b)); simpl; congruence.
Qed.

Lemma lt_le (a b : item) :
  is_lt (tuple_cmp (sort_errors a) (sort_errors b)) = true -> item_le a b.
Proof.
  unfold item_le.
  destruct (tuple_cmp (sort_errors a) (sort_errors b)); simpl; congruence.
Qed.

Lemma le_not_lt (a b : item) :
  item_le a b -> is_lt (tuple_cmp (sort_errors b) (sort_errors a)) = false.
Proof.
  unfold item_le. rewrite (tuple_cmp_antisym (sort_errors a) (sort_errors b)).
  destruct (tuple_cmp (sort_errors a) (sort_errors b)); simpl; congruence.
Qed.

Lemma stamped_perm (l r : list item) :
  Forall stamped l -> Permutation l r -> Forall stamped r.
Proof.
  intros Hl Hp. rewrite Forall_forall in *. intros i Hi. apply Hl.
  eapply Permutation_in; [symmetry|]; eassumption.
Qed.

(** Insertion into a sorted list of comparable entries returns, and keeps
    the list sorted. *)
Lemma insert_sorted (x : item) (l : list item) :
  has_filename x = true -> Forall stamped l ->
  exists r,
    insert sort_errors x l = Ok r
    /\ Permutation (x :: l) r
    /\ (Sorted item_le l -> Sorted item_le r)
    /\ (forall z, item_le z x -> HdRel item_le z l -> HdRel item_le z r).
Proof.
  intros Hx. induction 1 as [|y l Hy Hl IH].
  - exists [x]. simpl. repeat split; auto.
  - destruct IH as (r & Hr & Hperm & Hsort & Hhd).
    simpl. rewrite (sort_errors_lt y x Hy Hx). cbn [bind].
    destruct (is_lt (tuple_cmp (sort_errors y) (sort_errors x))) eqn:E.
    + rewrite Hr. cbn [bind]. exists (y :: r).
      split; [reflexivity|]. split; [|split].
      * rewrite perm_swap. now constructor.
      * intros Hs. inversion Hs; subst. constructor; auto.
        apply Hhd; auto. now apply lt_le.
      * intros z _ Hz. inversion Hz; subst. now constructor.
    + exists (x :: y :: l).
      split; [reflexivity|]. split; [|split].
      * reflexivity.
      * intros Hs. constructor; auto. constructor. now apply not_lt_le.
      * intros z Hz _. now constructor.
Qed.

(** On comparable entries [sorted] returns a sorted permutation. *)
Lemma sorted_sorted (l : list item) :
  Forall stamped l ->
  exists r,
    sorted sort_errors l = Ok r /\ Permutation l r /\ Sorted item_le r.
Proof.
  induction 1 as [|x l Hx Hl IH].
  - exists []. simpl. auto.
  - destruct IH as (r & Hr & Hperm & Hsort).
    assert (Hgood : Forall stamped r) by now apply (stamped_perm l).
    destruct (insert_sorted x r Hx Hgood) as (r' & Hr' & Hperm' & Hsort' & _).
    exists r'. simpl. rewrite Hr. cbn [bind]. repeat split; auto.
    rewrite <- Hperm'. now constructor.
Qed.

(** A sorted list of comparable entries is left as it is. *)
Lemma sorted_fixpoint (r : list item) :
  Forall stamped r -> Sorted item_le r -> sorted sort_errors r = Ok r.
Proof.
  induction 1 as [|x r Hx Hr IH]; [reflexivity|].
  intros Hs. inversion Hs; subst.
  simpl. rewrite IH by assumption. cbn [bind].
  destruct r as [|y r]; [reflexivity|].
  inversion Hr; subst. simpl.
  rewrite (sort_errors_lt y x) by assumption. cbn [bind].
  inversion H2; subst.
  now rewrite (le_not_lt x y).
Qed.

(** Two sorted arrangements of the same entries are the same list when
    no two distinct entries share a key. *)
Lemma sorted_unique (r1 : list item) :
  forall r2,
    StronglySorted item_le r1 -> StronglySorted item_le r2 ->
    Permutation r1 r2 ->
    (forall a b, In a r1 -> In b r1 ->
                 sort_errors a = sort_errors b -> a = b) ->
    r1 = r2.
Proof.
  induction r1 as [|x r1 IH]; intros r2 H1 H2 Hp Hinj.
  - now apply Permutation_nil in Hp.
  - destruct r2 as [|y r2].
    { symmetry in Hp. now apply Permutation_nil in Hp. }
    inversion H1 as [|? ? Hs1 Hall1]; subst.
    inversion H2 as [|? ? Hs2 Hall2]; subst.
    assert (Hxy : x = y).
    { assert (Hy : In y (x :: r1)).
      { eapply Permutation_in; [symmetry; exact Hp|now left]. }
      assert (Hx : In x (y :: r2)).
      { eapply Permutation_in; [exact Hp|now left]. }
      destruct Hy as [Hy|Hy]; [assumption|].
      destruct Hx as [Hx|Hx]; [now symmetry|].
      rewrite Forall_forall in Hall1, Hall2.
      apply Hinj; [now left|now right|].
      apply item_le_antisym; auto. }
    subst y. f_equal.
    apply IH; auto.
    + now apply Permutation_cons_inv in Hp.
    + intros a b Ha Hb. apply Hinj; now right.
Qed.

Lemma item_le_transitive : Relations_1.Transitive item_le.
Proof. intros a b c. apply item_le_trans. Qed.

Lemma raw_le_raw (s t : string) :
  item_le (Raw s) (Raw t) -> String.leb s t = true.
Proof.
  unfold item_le, String.leb. simpl.
  destruct (String.compare s t); congruence.
Qed.

Lemma diag_not_le_raw (d : Errors.Error) (t : string) :
  stamped (Diag d) -> ~ item_le (Diag d) (Raw t).
Proof.
  unfold stamped, item_le. simpl.
  destruct (Errors.filename d) as [[|c f]|]; try discriminate.
  intros _ H. now apply H.
Qed.

(** A sorted list of comparable entries is its raw messages, in the order
    of their text, followed by its Diagnostics. *)
Lemma sorted_shape (r : list item) :
  StronglySorted item_le r -> Forall stamped r ->
  exists texts ds,
    r = (map Raw texts ++ map Diag ds)%list
    /\ StronglySorted (fun s t => String.leb s t = true) texts.
Proof.
  induction 1 as [|x r Hs IH Hall]; intros Hst.
  - exists [], []. split; [reflexivity|constructor].
  - inversion Hst as [|? ? Hx Hr]; subst.
    destruct (IH Hr) as (texts & ds & -> & Htexts).
    destruct x as [t|d].
    + exists (t :: texts), ds. split; [reflexivity|].
      constructor; auto.
      rewrite Forall_forall in *. intros s Hin.
      apply raw_le_raw, Hall, in_or_app. left. now apply in_map.
    + destruct texts as [|s texts].
      * exists [], (d :: ds). split; [reflexivity|constructor].
      * exfalso. inversion Hall; subst.
        now apply (diag_not_le_raw d s).
Qed.

(** Where every Diagnostic carries a non-empty file name, the sort
    returns, and in its result every raw message precedes every
    Diagnostic, whatever the text, file name, position, prefix or code;
    the raw messages are in the order of their text. *)
Theorem raw_messages_sort_first (l : list item) :
  Forall stamped l ->
  exists texts ds,
    sorted sort_errors l = Ok (map Raw texts ++ map Diag ds)%list
    /\ Permutation l (map Raw texts ++ map Diag ds)%list
    /\ StronglySorted (fun s t => String.leb s t = true) texts.
Proof.
  intros Hl.
  destruct (sorted_sorted l Hl) as (r & Hr & Hperm & Hsort).
  apply (Sorted_StronglySorted item_le_transitive) in Hsort.
  assert (Hst : Forall stamped r) by now apply (stamped_perm l).
  destruct (sorted_shape r Hsort Hst) as (texts & ds & -> & Htexts).
  now exists texts, ds.
Qed.

Lemma raw_messages_sort_first_witness :
  exists texts ds,
    sorted sort_errors
      [Demo.finding "m"; Raw "zz"; Diag (Demo.furb113 0); Raw "b"]
      = Ok (map Raw texts ++ map Diag ds)%list
    /\ Permutation
         [Demo.finding "m"; Raw "zz"; Diag (Demo.furb113 0); Raw "b"]
         (map Raw texts ++ map Diag ds)%list
    /\ StronglySorted (fun s t => String.leb s t = true) texts.
Proof.
  apply (raw_messages_sort_first
           [Demo.finding "m"; Raw "zz"; Diag (Demo.furb113 0); Raw "b"]).
  repeat constructor.
Defined.

(** A Diagnostic without a file name has a key that starts with the
    empty string, like the key of a raw message; the next items are an
    [int] and a [str], and the comparison of the two keys raises. *)
Lemma unstamped_diagnostic_not_sorted :
  sort_errors (Diag (ListExtend.ErrorUseListExtend 1 0))
    = [VStr ""; VInt 1; VInt 0; VStr "FURB"; VInt 113]
  /\ sorted sort_errors [Raw "msg"; Diag (ListExtend.ErrorUseListExtend 1 0)]
     = Raise TypeError.
Proof. split; reflexivity. Qed.

(** C6 (as amended).  On raw messages and Diagnostics that carry a file
    name, [<] on sort keys never raises and is a strict total order of the
    keys; the sort returns and sorting its result again changes nothing;
    two permutations of a collection sort to the same sequence when no two
    distinct entries of it have the same key. *)
Theorem sort_deterministic_idempotent (l1 l2 : list item) :
  Forall stamped l1 ->
  Permutation l1 l2 ->
  (exists r1 r2,
     sorted sort_errors l1 = Ok r1
     /\ sorted sort_errors l2 = Ok r2
     /\ sorted sort_errors r1 = Ok r1
     /\ ((forall a b, In a l1 -> In b l1 ->
                      sort_errors a = sort_errors b -> a = b) ->
         r1 = r2))
  /\ (forall a, stamped a ->
        tuple_lt (sort_errors a) (sort_errors a) = Ok false)
  /\ (forall a b c, stamped a -> stamped b -> stamped c ->
        tuple_lt (sort_errors a) (sort_errors b) = Ok true ->
        tuple_lt (sort_errors b) (sort_errors c) = Ok true ->
        tuple_lt (sort_errors a) (sort_errors c) = Ok true)
  /\ (forall a b, stamped a -> stamped b ->
        tuple_lt (sort_errors a) (sort_errors b) = Ok true
        \/ tuple_lt (sort_errors b) (sort_errors a) = Ok true
        \/ sort_errors a = sort_errors b).
Proof.
  intros Hl1 Hperm.
  assert (Hl2 : Forall stamped l2) by now apply (stamped_perm l1).
  split; [|split; [|split]].
  - destruct (sorted_sorted l1 Hl1) as (r1 & Hr1 & Hp1 & Hs1).
    destruct (sorted_sorted l2 Hl2) as (r2 & Hr2 & Hp2 & Hs2).
    exists r1, r2. repeat split; auto.
    + apply sorted_fixpoint; auto. now apply (stamped_perm l1).
    + intros Hinj.
      apply sorted_unique.
      * now apply (Sorted_StronglySorted item_le_transitive).
      * now apply (Sorted_StronglySorted item_le_transitive).
      * now rewrite <- Hp1, <- Hp2.
      * intros a b Ha Hb. apply Hinj.
        -- eapply Permutation_in; [symmetry|]; eassumption.
        -- eapply Permutation_in; [symmetry|]; eassumption.
  - intros a Ha. rewrite sort_errors_lt by assumption.
    assert (tuple_cmp (sort_errors a) (sort_errors a) = Eq) as ->
      by now apply tuple_cmp_eq.
    reflexivity.
  - intros a b c Ha Hb Hc. rewrite !sort_errors_lt by assumption.
    intros [= Hab] [= Hbc].
    destruct (tuple_cmp (sort_errors a) (sort_errors b)) eqn:E1;
      try discriminate.
    destruct (tuple_cmp (sort_errors b) (sort_errors c)) eqn:E2;
      try discriminate.
    now rewrite (tuple_cmp_trans _ _ _ E1 E2).
  - intros a b Ha Hb. rewrite !sort_errors_lt by assumption.
    rewrite (tuple_cmp_antisym (sort_errors a) (sort_errors b)).
    destruct (tuple_cmp (sort_errors a) (sort_errors b)) eqn:E; simpl; auto.
    apply tuple_cmp_eq in E. auto.
Qed.

Lemma sort_deterministic_idempotent_witness :
  let l1 := [Diag (Demo.furb113 3); Raw "b"; Diag (Demo.furb113 1)] in
  let l2 := [Raw "b"; Diag (Demo.furb113 1); Diag (Demo.furb113 3)] in
  (exists r1 r2,
     sorted sort_errors l1 = Ok r1
     /\ sorted sort_errors l2 = Ok r2
     /\ sorted sort_errors r1 = Ok r1
     /\ ((forall a b, In a l1 -> In b l1 ->
                      sort_errors a = sort_errors b -> a = b) ->
         r1 = r2))
  /\ (forall a, stamped a ->
        tuple_lt (sort_errors a) (sort_errors a) = Ok false)
  /\ (forall a b c, stamped a -> stamped b -> stamped c ->
        tuple_lt (sort_errors a) (sort_errors b) = Ok true ->
        tuple_lt (sort_errors b) (sort_errors c) = Ok true ->
        tuple_lt (sort_errors a) (sort_errors c) = Ok true)
  /\ (forall a b, stamped a -> stamped b ->
        tuple_lt (sort_errors a) (sort_errors b) = Ok true
        \/ tuple_lt (sort_errors b) (sort_errors a) = Ok true
        \/ sort_errors a = sort_errors b).
Proof.
  apply (sort_deterministic_idempotent
           [Diag (Demo.furb113 3); Raw "b"; Diag (Demo.furb113 1)]
           [Raw "b"; Diag (Demo.furb113 1); Diag (Demo.furb113 3)]).
  - repeat constructor.
  - apply perm_trans
      with [Raw "b"; Diag (Demo.furb113 3); Diag (Demo.furb113 1)];
      repeat constructor.
Defined.

(** C6 (as stated) fails: two Diagnostics that differ in their message
    only have the same key, so each of the two orders of the pair is left
    as it is. *)
Lemma equal_keys_keep_input_order :
  Demo.finding "first" <> Demo.finding "second"
  /\ sorted sort_errors [Demo.finding "first"; Demo.finding "second"]
     = Ok [Demo.finding "first"; Demo.finding "second"]
  /\ sorted sort_errors [Demo.finding "second"; Demo.finding "first"]
     = Ok [Demo.finding "second"; Demo.finding "first"].
Proof. repeat split. discriminate. Qed.

End OrderFacts.

(** * Properties of the orchestrator and of the exit status *)

Section DriverFacts.
Import Py Main.

(** C7.  When the settings load and none of the help, version, generate
    and explain branches is taken, [main] returns what [run_refurb]
    leaves after suppression and sorting decides: a non-zero status
    exactly when that collection is not empty, and zero when it is. *)
Theorem exit_status_reflects_report
    (env : Env) (args : list string) (settings : Settings)
    (errors : list item) :
  load_settings env args = inr settings ->
  help settings = false ->
  version settings = false ->
  generate settings = false ->
  explain settings = None ->
  run_refurb env settings = Ok errors ->
  exists printed status,
    main env args = Ok (printed, status)
    /\ (status <> 0 <-> errors <> [])
    /\ (errors = [] -> status = 0).
Proof.
  intros Hs Hh Hv Hg He Hr.
  unfold main. rewrite Hs, Hh, Hv, Hg, He, Hr. cbn [bind].
  eexists _, _. split; [reflexivity|].
  destruct errors as [|e errors].
  - split; [|reflexivity]. split; intros H; now elim H.
  - split; [|discriminate]. split; discriminate.
Qed.

Lemma exit_status_reflects_report_witness :
  exists printed status,
    main (Demo.env Demo.a_py
            (fun _ => [ListExtend.append_call "nums" 2 0;
                       ListExtend.append_call "nums" 3 0]) None)
      ["a.py"] = Ok (printed, status)
    /\ (status <> 0 <-> [Diag (set_filename (Some "a.py")
             (ListExtend.ErrorUseListExtend 2 0))] <> [])
    /\ ([Diag (set_filename (Some "a.py")
             (ListExtend.ErrorUseListExtend 2 0))] = [] -> status = 0).
Proof.
  apply (exit_status_reflects_report
           (Demo.env Demo.a_py
              (fun _ => [ListExtend.append_call "nums" 2 0;
                         ListExtend.append_call "nums" 3 0]) None)
           ["a.py"] (Demo.settings ["a.py"]) [Diag (set_filename (Some "a.py")
             (ListExtend.ErrorUseListExtend 2 0))]);
    reflexivity.
Defined.

Lemma sub_leading_spec (lit repl m : string) :
  (forall rest, m = lit ++ rest -> Re.sub_leading lit repl m = repl ++ rest)
  /\ ((forall rest, m <> lit ++ rest) -> Re.sub_leading lit repl m = m).
Proof.
  unfold Re.sub_leading.
  destruct (Re.strip lit m) as [rest|] eqn:E.
  - apply strip_spec in E. subst m. split.
    + intros rest' H. f_equal.
      clear -H. induction lit as [|a lit IH]; simpl in H; [auto|].
      injection H as H. auto.
    + intros H. now elim (H rest).
  - split; [|reflexivity].
    intros rest H. apply strip_spec in H. congruence.
Qed.

(** C8.  When the options are accepted and the build step raises
    [CompileError], [run_refurb] returns the messages of the error, each
    with a leading [mypy: ] replaced by [refurb: ], as raw messages, and
    no Diagnostic. *)
Theorem compile_error_gives_raw_messages
    (env : Env) (settings : Settings) (sources : list (BuildSource env))
    (opt : Options env) (messages : list string) :
  process_options env
    (match files settings with Some fs => fs | None => [] end)
    = inr (sources, opt) ->
  build env sources (fine_grained env opt) = inl messages ->
  exists report,
    run_refurb env settings = Ok report
    /\ report
       = map (fun m => Raw (Re.sub_leading "mypy: " "refurb: " m)) messages
    /\ existsb is_error report = false
    /\ (forall m rest, m = "mypy: " ++ rest ->
          Re.sub_leading "mypy: " "refurb: " m = "refurb: " ++ rest)
    /\ (forall m, (forall rest, m <> "mypy: " ++ rest) ->
          Re.sub_leading "mypy: " "refurb: " m = m).
Proof.
  intros Hp Hb.
  eexists. split; [|split; [reflexivity|split; [|split]]].
  - unfold run_refurb. rewrite Hp, Hb. reflexivity.
  - clear. induction messages as [|m l IH]; [reflexivity|exact IH].
  - intros m rest. apply sub_leading_spec.
  - intros m. apply sub_leading_spec.
Qed.

Lemma compile_error_gives_raw_messages_witness :
  exists report,
    run_refurb
      (Demo.env Demo.a_py (fun _ => [])
         (Some ["mypy: can't read file"; "a.py: error: invalid syntax"]))
      (Demo.settings ["a.py"]) = Ok report
    /\ report
       = map (fun m => Raw (Re.sub_leading "mypy: " "refurb: " m))
           ["mypy: can't read file"; "a.py: error: invalid syntax"]
    /\ existsb is_error report = false
    /\ (forall m rest, m = "mypy: " ++ rest ->
          Re.sub_leading "mypy: " "refurb: " m = "refurb: " ++ rest)
    /\ (forall m, (forall rest, m <> "mypy: " ++ rest) ->
          Re.sub_leading "mypy: " "refurb: " m = m).
Proof.
  apply (compile_error_gives_raw_messages
           (Demo.env Demo.a_py (fun _ => [])
              (Some ["mypy: can't read file";
                     "a.py: error: invalid syntax"]))
           (Demo.settings ["a.py"]) ["a.py"] tt);
    reflexivity.
Defined.

(** C5.  [sort_errors] and [ignored_via_comment] both provide for a
    Diagnostic without a file name, and [run_refurb] can produce one: for
    a source without a path ([file.path] is [None]) it stamps [None].  In
    a run with [--debug], where the tree of such a source gives one
    Diagnostic, the collection to sort is the raw message [str(tree)] and
    that Diagnostic, and the sort raises [TypeError] instead of putting
    the raw message first. *)
Theorem pathless_debug_run_raises
    (env : Env) (settings : Settings) (file : BuildSource env)
    (opt : Options env) (result : BuildResult env) (t : MypyFile env)
    (e : Errors.Error) :
  process_options env
    (match files settings with Some fs => fs | None => [] end)
    = inr ([file], opt) ->
  build env [file] (fine_grained env opt) = inr result ->
  debug settings = true ->
  path env file = None ->
  tree env result file = Some t ->
  visit env settings t = [e] ->
  sorted sort_errors [Raw (str_tree env t); Diag (set_filename None e)]
    = Raise TypeError
  /\ run_refurb env settings = Raise TypeError.
Proof.
  intros Hp Hb Hd Hpath Ht Hv.
  assert (Hsort : sorted sort_errors
                    [Raw (str_tree env t); Diag (set_filename None e)]
                  = Raise TypeError) by reflexivity.
  split; [exact Hsort|].
  unfold run_refurb. rewrite Hp, Hb.
  cbn [flat_map]. unfold file_errors. rewrite Ht, Hd, Hv, Hpath.
  cbn [map app filter_not ignored_via_comment set_filename
       Errors.filename bind].
  exact Hsort.
Qed.

Lemma pathless_debug_run_raises_witness :
  sorted sort_errors
    [Raw "MypyFile";
     Diag (set_filename None (ListExtend.ErrorUseListExtend 1 0))]
    = Raise TypeError
  /\ run_refurb
       (Demo.pathless [ListExtend.append_call "x" 1 0;
                       ListExtend.append_call "x" 2 0])
       (Demo.debug_settings ["m"]) = Raise TypeError.
Proof.
  apply (pathless_debug_run_raises
           (Demo.pathless [ListExtend.append_call "x" 1 0;
                           ListExtend.append_call "x" 2 0])
           (Demo.debug_settings ["m"]) "m" tt tt
           [ListExtend.append_call "x" 1 0; ListExtend.append_call "x" 2 0]
           (ListExtend.ErrorUseListExtend 1 0));
    reflexivity.
Defined.

End DriverFacts.

(** * More on the repeated-append check *)

Section ListExtendMore.
Import Nodes ListExtend.

(** Once a Diagnostic was emitted, append calls emit nothing, whatever
    their receivers. *)
Lemma scan_reported_any (l : list Statement) :
  forall (last : Last) (errors : list Errors.Error),
    forallb is_append l = true ->
    did_error last = true ->
    snd (scan l (last, errors)) = errors.
Proof.
  induction l as [|s l IH]; intros last errors Hl Hd; [reflexivity|].
  simpl in Hl. apply andb_true_iff in Hl as [Hs Hl].
  change (scan (s :: l) (last, errors))
    with (scan l (visit_stmt (last, errors) s)).
  unfold visit_stmt. unfold is_append in Hs.
  destruct (append_receiver s) as [m|]; [|discriminate].
  rewrite Hd. cbn [negb andb]. now apply IH.
Qed.

Lemma repeated_at_snoc (l : list Statement) (s : Statement)
    (e : Errors.Error) :
  repeated_at l e -> repeated_at (l ++ [s]) e.
Proof.
  intros (pre & s1 & s2 & post & n & -> & H1 & H2 & He).
  exists pre, s1, s2, (post ++ [s])%list, n.
  repeat split; auto.
  now rewrite <- app_assoc.
Qed.

Lemma scan_invariant (l : list Statement) :
  Forall named l ->
  tracks l (fst (scan l (Last_new, [])))
  /\ Forall (repeated_at l) (snd (scan l (Last_new, []))).
Proof.
  induction l as [|s l IH] using rev_ind; intros Hl.
  - split; [now left|constructor].
  - apply Forall_app in Hl as [Hl Hs].
    inversion Hs as [|? ? Hnamed _]; subst.
    destruct (IH Hl) as [Htr Herr]. clear IH.
    rewrite scan_snoc.
    destruct (scan l (Last_new, [])) as [last errs]. cbn [fst snd] in *.
    assert (Herr' : Forall (repeated_at (l ++ [s])) errs).
    { eapply Forall_impl; [|exact Herr].
      intros e. apply repeated_at_snoc. }
    unfold visit_stmt.
    destruct (append_receiver s) as [m|] eqn:Hm.
    + assert (Htr' : forall d,
                 tracks (l ++ [s])
                   {| name := m; line := Nodes.line s;
                      column := Nodes.column s; did_error := d |}).
      { intros d. right. exists l, s. auto. }
      destruct (negb (did_error last) && (m =? name last)%string) eqn:Hc;
        cbn [fst snd]; split; auto.
      apply Forall_app. split; [exact Herr'|].
      constructor; [|constructor].
      apply andb_true_iff in Hc as [_ Hc]. apply String.eqb_eq in Hc.
      subst m.
      destruct Htr as [Hempty|(l' & s1 & -> & Hs1 & Hline & Hcol)].
      * unfold named in Hnamed. rewrite Hm, Hempty in Hnamed.
        now elim Hnamed.
      * exists l', s1, s, [], (name last).
        rewrite <- app_assoc. unfold appends_on.
        rewrite Hs1, Hm, String.eqb_refl, Hline, Hcol. auto.
    + cbn [fst snd]. split; [now left|exact Herr'].
Qed.

(** X1.  Every Diagnostic of a block whose receivers are named stands for
    two consecutive append calls on one receiver, and is located at the
    first of the two. *)
Theorem diagnostics_mark_repeated_appends
    (stmts : list Statement) (e : Errors.Error) :
  Forall named stmts ->
  In e (check_stmts stmts []) ->
  exists pre s1 s2 post n,
    stmts = (pre ++ s1 :: s2 :: post)%list
    /\ appends_on n s1 = true
    /\ appends_on n s2 = true
    /\ e = ErrorUseListExtend (Nodes.line s1) (Nodes.column s1).
Proof.
  intros Hn He.
  destruct (scan_invariant stmts Hn) as [_ H].
  rewrite Forall_forall in H. exact (H e He).
Qed.

Lemma diagnostics_mark_repeated_appends_witness :
  exists pre s1 s2 post n,
    [OtherStmt 1 0; append_call "x" 2 4; append_call "x" 3 4]
      = (pre ++ s1 :: s2 :: post)%list
    /\ appends_on n s1 = true
    /\ appends_on n s2 = true
    /\ ErrorUseListExtend 2 4
       = ErrorUseListExtend (Nodes.line s1) (Nodes.column s1).
Proof.
  apply (diagnostics_mark_repeated_appends
           [OtherStmt 1 0; append_call "x" 2 4; append_call "x" 3 4]
           (ErrorUseListExtend 2 4)).
  - repeat constructor; discriminate.
  - left. reflexivity.
Defined.

Lemma segment_report_cons (s1 s2 : Statement) (l : list Statement) :
  segment_report (s1 :: s2 :: l)
    = if same_receiver s1 s2
      then [ErrorUseListExtend (Nodes.line s1) (Nodes.column s1)]
      else segment_report (s2 :: l).
Proof. reflexivity. Qed.

(** From a state that tracks the call [p] with nothing reported yet, a
    stretch of append calls gives what [segment_report] says. *)
Lemma scan_segment (l : list Statement) :
  forall (p : Statement) (n : string) (last : Last)
         (errors : list Errors.Error),
    forallb is_append l = true ->
    append_receiver p = Some n ->
    name last = n ->
    line last = Nodes.line p ->
    column last = Nodes.column p ->
    did_error last = false ->
    snd (scan l (last, errors)) = (errors ++ segment_report (p :: l))%list.
Proof.
  induction l as [|s l IH]; intros p n last errors Hl Hp Hn Hline Hcol Hd.
  - simpl. now rewrite app_nil_r.
  - simpl in Hl. apply andb_true_iff in Hl as [Hs Hl].
    change (scan (s :: l) (last, errors))
      with (scan l (visit_stmt (last, errors) s)).
    unfold visit_stmt. unfold is_append in Hs.
    rewrite segment_report_cons. unfold same_receiver. rewrite Hp.
    destruct (append_receiver s) as [m|] eqn:Hm; [|discriminate].
    rewrite Hd, Hn, Hline, Hcol. cbn [negb andb].
    rewrite (String.eqb_sym n m).
    destruct (m =? n)%string.
    + now rewrite scan_reported_any.
    + now apply (IH s m).
Qed.

(** X2.  On a block made of append calls only, on named receivers,
    [check_stmts] reports the first call that is directly followed by a
    call on the same receiver and nothing else: at most one Diagnostic,
    however many receivers are appended to repeatedly. *)
Theorem append_only_block_reported_once
    (block : list Statement) (errors : list Errors.Error) :
  forallb is_append block = true ->
  Forall named block ->
  check_stmts block errors = (errors ++ segment_report block)%list
  /\ (List.length (segment_report block) <= 1)%nat.
Proof.
  intros Ha Hn. split.
  - destruct block as [|s l]; [simpl; now rewrite app_nil_r|].
    simpl in Ha. apply andb_true_iff in Ha as [Hs Hl].
    inversion Hn as [|? ? Hnamed _]; subst.
    unfold check_stmts.
    change (scan (s :: l) (Last_new, errors))
      with (scan l (visit_stmt (Last_new, errors) s)).
    unfold visit_stmt. unfold is_append in Hs. unfold named in Hnamed.
    destruct (append_receiver s) as [m|] eqn:Hm; [|discriminate].
    assert ((m =? name Last_new)%string = false) as ->.
    { apply String.eqb_neq. intros ->. now apply Hnamed. }
    rewrite andb_false_r.
    now apply (scan_segment l s m).
  - clear. induction block as [|s1 [|s2 l] IH]; simpl; auto.
    destruct (same_receiver s1 s2); simpl; auto.
Qed.

Lemma append_only_block_reported_once_witness :
  check_stmts [append_call "x" 1 0; append_call "y" 2 0;
               append_call "y" 3 0; append_call "z" 4 0;
               append_call "z" 5 0] []
    = ([] ++ segment_report [append_call "x" 1 0; append_call "y" 2 0;
                             append_call "y" 3 0; append_call "z" 4 0;
                             append_call "z" 5 0])%list
  /\ (List.length (segment_report [append_call "x" 1 0; append_call "y" 2 0;
                                   append_call "y" 3 0; append_call "z" 4 0;
                                   append_call "z" 5 0]) <= 1)%nat.
Proof.
  apply (append_only_block_reported_once
           [append_call "x" 1 0; append_call "y" 2 0; append_call "y" 3 0;
            append_call "z" 4 0; append_call "z" 5 0] []).
  - reflexivity.
  - repeat constructor; discriminate.
Defined.

(** X3.  [check_stmts] only appends to the list it is given, what it
    appends does not depend on what the list held, and a statement that
    is not an append call cuts the block in two parts that are checked
    independently of each other. *)
Theorem check_stmts_composes
    (a b : list Statement) (brk : Statement) (errors : list Errors.Error) :
  append_receiver brk = None ->
  check_stmts a errors = (errors ++ check_stmts a [])%list
  /\ check_stmts (a ++ brk :: b) errors
     = (errors ++ check_stmts a [] ++ check_stmts b [])%list.
Proof.
  intros Hb. split.
  - apply check_stmts_errors.
  - rewrite check_stmts_break by assumption.
    now rewrite (check_stmts_errors a), <- app_assoc.
Qed.

Lemma check_stmts_composes_witness :
  check_stmts [append_call "x" 1 0; append_call "x" 2 0]
    [ErrorUseListExtend 9 9]
    = ([ErrorUseListExtend 9 9]
       ++ check_stmts [append_call "x" 1 0; append_call "x" 2 0] [])%list
  /\ check_stmts ([append_call "x" 1 0; append_call "x" 2 0]
                  ++ OtherStmt 3 0
                  :: [append_call "x" 4 0; append_call "x" 5 0])
       [ErrorUseListExtend 9 9]
     = ([ErrorUseListExtend 9 9]
        ++ check_stmts [append_call "x" 1 0; append_call "x" 2 0] []
        ++ check_stmts [append_call "x" 4 0; append_call "x" 5 0] [])%list.
Proof.
  apply (check_stmts_composes
           [append_call "x" 1 0; append_call "x" 2 0]
           [append_call "x" 4 0; append_call "x" 5 0]
           (OtherStmt 3 0) [ErrorUseListExtend 9 9]).
  reflexivity.
Defined.

Lemma scan_snoc_name (n : string) (l : list Statement) (s : Statement)
    (st : Last * list Errors.Error) :
  appends_on n s = true -> name (fst (scan (l ++ [s]) st)) = n.
Proof.
  intros H. rewrite scan_snoc.
  destruct (scan l st) as [last errs].
  unfold visit_stmt. unfold appends_on in H.
  destruct (append_receiver s) as [m|]; [|discriminate].
  apply String.eqb_eq in H. subst m.
  now destruct (negb (did_error last) && (n =? name last)%string).
Qed.

(** Whenever [did_error] is set, a Diagnostic was emitted. *)
Lemma did_error_emitted (l : list Statement) :
  did_error (fst (scan l (Last_new, []))) = true ->
  snd (scan l (Last_new, [])) <> [].
Proof.
  induction l as [|s l IH] using rev_ind; [discriminate|].
  rewrite scan_snoc.
  destruct (scan l (Last_new, [])) as [last errs]. cbn [fst snd] in *.
  unfold visit_stmt.
  destruct (append_receiver s) as [m|]; [|discriminate].
  destruct (negb (did_error last) && (m =? name last)%string) eqn:Hc;
    cbn [fst snd did_error].
  - intros _ H. now apply app_eq_nil in H as [_ H].
  - exact IH.
Qed.

(** X4.  On a block whose receivers are named, [check_stmts] is silent
    exactly when no two consecutive statements are append calls on the
    same receiver. *)
Theorem silent_iff_no_repeated_append (stmts : list Statement) :
  Forall named stmts ->
  (check_stmts stmts [] = []
   <-> ~ exists pre s1 s2 post n,
           stmts = (pre ++ s1 :: s2 :: post)%list
           /\ appends_on n s1 = true
           /\ appends_on n s2 = true).
Proof.
  intros Hn. split.
  - intros Hsilent (pre & s1 & s2 & post & n & -> & H1 & H2).
    unfold check_stmts in Hsilent.
    replace (pre ++ s1 :: s2 :: post)%list
      with (((pre ++ [s1]) ++ [s2]) ++ post)%list in Hsilent
      by now rewrite <- !app_assoc.
    rewrite scan_app, scan_snoc in Hsilent.
    pose proof (did_error_emitted (pre ++ [s1])) as Hdid.
    pose proof (scan_snoc_name n pre s1 (Last_new, []) H1) as Hname.
    destruct (scan (pre ++ [s1]) (Last_new, [])) as [last1 errs1].
    cbn [fst snd] in Hdid, Hname.
    unfold visit_stmt in Hsilent. unfold appends_on in H2.
    destruct (append_receiver s2) as [m2|]; [|discriminate].
    apply String.eqb_eq in H2. subst m2.
    rewrite Hname, String.eqb_refl, andb_true_r in Hsilent.
    destruct (did_error last1); cbn [negb] in Hsilent;
      match type of Hsilent with
      | snd (scan post (?l, ?e)) = [] =>
          destruct (scan_extends post l e) as [out Hout]
      end;
      rewrite Hout in Hsilent; clear Hout;
      apply app_eq_nil in Hsilent as [Hsilent _].
    + now apply Hdid.
    + now apply app_eq_nil in Hsilent as [_ Hsilent].
  - intros Hno.
    destruct (check_stmts stmts []) as [|e l] eqn:E; [reflexivity|].
    exfalso. apply Hno.
    destruct (scan_invariant stmts Hn) as [_ H].
    unfold check_stmts in E. rewrite E in H.
    inversion H as [|? ? (pre & s1 & s2 & post & n & Hs & H1 & H2 & _) _].
    now exists pre, s1, s2, post, n.
Qed.

Lemma silent_iff_no_repeated_append_witness :
  check_stmts [append_call "x" 1 0; append_call "y" 2 0;
               append_call "x" 3 0] [] = []
  <-> ~ exists pre s1 s2 post n,
          [append_call "x" 1 0; append_call "y" 2 0; append_call "x" 3 0]
            = (pre ++ s1 :: s2 :: post)%list
          /\ appends_on n s1 = true
          /\ appends_on n s2 = true.
Proof.
  apply (silent_iff_no_repeated_append
           [append_call "x" 1 0; append_call "y" 2 0; append_call "x" 3 0]).
  repeat constructor; discriminate.
Defined.

End ListExtendMore.

(** * More on the suppression filter *)

Section SuppressionMore.
Import Py Main.

(** X5.  A Diagnostic is suppressed only by a marker at the end of its
    line: the line ends with [# noqa], or with [# noqa: ] and the rendered
    prefix and code of the Diagnostic, each possibly followed by one
    newline. *)
Theorem suppressed_only_by_marker
    (env : Env) (e : Errors.Error) (file : string) (lines : list string)
    (text : string) :
  Errors.filename e = Some file ->
  file <> "" ->
  get_source_lines env file = Ok lines ->
  index lines (Errors.line e - 1) = Ok text ->
  ignored_via_comment env (Diag e) = Ok true ->
  exists pre eol,
    (eol = "" \/ eol = newline)
    /\ (text = pre ++ "# noqa" ++ eol
        \/ text = pre ++ "# noqa: " ++ Errors.error_code_str e ++ eol).
Proof.
  intros Hf Hne Hg Hi.
  rewrite (ignored_unfold env e file lines text Hf Hne Hg Hi).
  destruct (Re.search noqa text) as [g|] eqn:E; [|discriminate].
  apply search_sound in E as (pre & t & -> & E).
  apply noqa_shape in E as (eol & Heol & [[-> ->]|E]).
  - intros _. exists pre, eol. auto.
  - destruct E as (L & D & -> & -> & _).
    cbn [append drop]. intros [= H]. apply String.eqb_eq in H.
    exists pre, eol. split; [exact Heol|]. right.
    now rewrite <- H, append_assoc.
Qed.

Lemma suppressed_only_by_marker_witness :
  exists pre eol,
    (eol = "" \/ eol = newline)
    /\ ("nums.append(6)  # noqa: FURB113" = pre ++ "# noqa" ++ eol
        \/ "nums.append(6)  # noqa: FURB113"
           = pre ++ "# noqa: " ++ Errors.error_code_str (Demo.furb113 3)
               ++ eol).
Proof.
  apply (suppressed_only_by_marker
           (Demo.env Demo.a_py (fun _ => []) None) (Demo.furb113 3)
           "a.py" Demo.a_py_lines "nums.append(6)  # noqa: FURB113");
    (reflexivity || discriminate).
Defined.

Lemma index_wraps {A : Type} (l : list A) (i : Z) :
  - Z.of_nat (List.length l) <= i < 0 ->
  index l i = index l (i + Z.of_nat (List.length l)).
Proof.
  intros H. unfold index.
  destruct (Z.ltb_spec i 0) as [_|?]; [|lia].
  destruct (Z.ltb_spec (i + Z.of_nat (List.length l)) 0) as [?|_]; [lia|].
  reflexivity.
Qed.

Lemma index_before_start {A : Type} (l : list A) (i : Z) :
  i < - Z.of_nat (List.length l) -> index l i = Raise IndexError.
Proof.
  intros H. unfold index.
  destruct (Z.ltb_spec i 0) as [_|?]; [|lia].
  destruct (Z.leb_spec 0 (i + Z.of_nat (List.length l))) as [?|_]; [lia|].
  reflexivity.
Qed.

Lemma index_raises {A : Type} (l : list A) (i : Z) (ex : exn) :
  index l i = Raise ex -> ex = IndexError.
Proof.
  unfold index.
  destruct ((0 <=? _) && _); [|now intros [= <-]].
  destruct (nth_error l _); [discriminate|now intros [= <-]].
Qed.

(** [ignored_via_comment] raises what the read of the file raises, or
    else the [IndexError] of the line lookup. *)
Lemma ignored_raises (env : Env) (i : item) (ex : exn) :
  ignored_via_comment env i = Raise ex ->
  ex = IndexError
  \/ exists e file,
       i = Diag e /\ Errors.filename e = Some file
       /\ get_source_lines env file = Raise ex.
Proof.
  destruct i as [t|e]; [discriminate|].
  unfold ignored_via_comment.
  destruct (Errors.filename e) as [[|c file]|] eqn:Hf; try discriminate.
  destruct (get_source_lines env (String c file)) as [lines|ex'] eqn:Hg;
    cbn [bind].
  - destruct (index _ _) as [text|ex'] eqn:E; cbn [bind].
    + destruct (Re.search noqa text) as [[[|a ig]|]|]; try discriminate.
      destruct (drop 2 (String a ig) =? Errors.error_code_str e)%string;
        discriminate.
    + intros [= <-]. left. now apply index_raises in E.
  - intros [= <-]. right. now exists e, (String c file).
Qed.

(** X6.  For a Diagnostic with a set file name in a file of [n] lines
    that was read, [ignored_via_comment] returns exactly when
    [1 - n <= line <= n] and raises [IndexError] otherwise; a line in
    [1 - n .. 0] is read from the end of the file, as line [line + n]. *)
Theorem line_lookup_domain
    (env : Env) (e : Errors.Error) (file : string) (lines : list string) :
  Errors.filename e = Some file ->
  file <> "" ->
  get_source_lines env file = Ok lines ->
  let n := Z.of_nat (List.length lines) in
  ((exists b, ignored_via_comment env (Diag e) = Ok b)
   <-> 1 - n <= Errors.line e <= n)
  /\ (~ 1 - n <= Errors.line e <= n ->
      ignored_via_comment env (Diag e) = Raise IndexError)
  /\ (1 - n <= Errors.line e <= 0 ->
      ignored_via_comment env (Diag e)
        = ignored_via_comment env
            (Diag (Errors.at_line e (Errors.line e + n)))).
Proof.
  intros Hf Hne Hg n. subst n.
  assert (Hout : ~ 1 - Z.of_nat (List.length lines) <= Errors.line e
                     <= Z.of_nat (List.length lines) ->
                 ignored_via_comment env (Diag e) = Raise IndexError).
  { intros H. unfold ignored_via_comment. rewrite Hf.
    destruct file as [|c file]; [contradiction|].
    rewrite Hg. cbn [bind].
    destruct (Z.le_gt_cases (Errors.line e) (Z.of_nat (List.length lines))).
    - rewrite index_before_start by lia. reflexivity.
    - rewrite index_past_end by lia. reflexivity. }
  split; [split|split; [exact Hout|]].
  - intros [b Hb].
    destruct (Z.le_gt_cases (1 - Z.of_nat (List.length lines)) (Errors.line e));
      [destruct (Z.le_gt_cases (Errors.line e) (Z.of_nat (List.length lines)));
       [lia|]|];
      rewrite Hout in Hb by lia; discriminate.
  - intros H.
    assert (Hidx : exists text, index lines (Errors.line e - 1) = Ok text).
    { destruct (Z.le_gt_cases 1 (Errors.line e)).
      - apply index_in_range. lia.
      - rewrite index_wraps by lia. apply index_in_range. lia. }
    destruct Hidx as [text Ht].
    rewrite (ignored_unfold env e file lines text Hf Hne Hg Ht).
    destruct (Re.search noqa text) as [[[|a ig]|]|]; eauto.
  - intros H. unfold ignored_via_comment.
    cbn [Errors.at_line Errors.filename Errors.line].
    rewrite Hf. destruct file as [|c file]; [contradiction|].
    rewrite Hg. cbn [bind].
    rewrite (index_wraps lines (Errors.line e - 1)) by lia.
    replace (Errors.line e - 1 + Z.of_nat (List.length lines))
      with (Errors.line e + Z.of_nat (List.length lines) - 1) by lia.
    reflexivity.
Qed.

Lemma line_lookup_domain_witness :
  let e := Demo.furb113 (-1) in
  let env := Demo.env Demo.a_py (fun _ => []) None in
  let n := Z.of_nat (List.length Demo.a_py_lines) in
  ((exists b, ignored_via_comment env (Diag e) = Ok b)
   <-> 1 - n <= Errors.line e <= n)
  /\ (~ 1 - n <= Errors.line e <= n ->
      ignored_via_comment env (Diag e) = Raise IndexError)
  /\ (1 - n <= Errors.line e <= 0 ->
      ignored_via_comment env (Diag e)
        = ignored_via_comment env
            (Diag (Errors.at_line e (Errors.line e + n)))).
Proof.
  apply (line_lookup_domain (Demo.env Demo.a_py (fun _ => []) None)
           (Demo.furb113 (-1)) "a.py" Demo.a_py_lines).
  - reflexivity.
  - discriminate.
  - reflexivity.
Defined.

End SuppressionMore.

(** * More on the ordering *)

Section OrderMore.
Import Py Main.

Section AnyKey.
Context {A : Type} (key : A -> list val).

Lemma tuple_lt_irrefl (k : list val) : tuple_lt k k = Ok false.
Proof.
  induction k as [|x k IH]; [reflexivity|].
  simpl.
  assert (val_eqb x x = true) as ->; [|exact IH].
  destruct x; simpl; [apply String.eqb_refl|apply Z.eqb_refl].
Qed.

Lemma tuple_lt_raises (a : list val) :
  forall b ex, tuple_lt a b = Raise ex -> ex = TypeError.
Proof.
  induction a as [|x a IH]; intros [|y b] ex; simpl; try discriminate.
  destruct (val_eqb x y); [apply IH|].
  destruct x, y; simpl; try discriminate; now intros [= <-].
Qed.

Lemma insert_perm (x : A) (l : list A) :
  forall r, insert key x l = Ok r -> Permutation (x :: l) r.
Proof.
  induction l as [|y l IH]; intros r; simpl.
  - now intros [= <-].
  - destruct (tuple_lt (key y) (key x)) as [[|]|]; cbn [bind];
      try discriminate.
    + destruct (insert key x l) as [r'|]; cbn [bind]; [|discriminate].
      intros [= <-]. rewrite perm_swap. constructor. now apply IH.
    + now intros [= <-].
Qed.

Lemma sorted_perm (l : list A) :
  forall r, sorted key l = Ok r -> Permutation l r.
Proof.
  induction l as [|x l IH]; intros r; simpl.
  - now intros [= <-].
  - destruct (sorted key l) as [r'|]; cbn [bind]; [|discriminate].
    intros H. apply insert_perm in H. rewrite <- H.
    constructor. now apply IH.
Qed.

(** Insertion never moves an entry past one with the same key. *)
Lemma insert_filter (P : A -> bool) (x : A) (l : list A) :
  (forall a b, P a = true -> P b = true -> key a = key b) ->
  forall r, insert key x l = Ok r -> filter P r = filter P (x :: l).
Proof.
  intros HP. induction l as [|y l IH]; intros r; simpl.
  - now intros [= <-].
  - destruct (tuple_lt (key y) (key x)) as [[|]|] eqn:E; cbn [bind];
      try discriminate.
    + destruct (insert key x l) as [r'|]; cbn [bind]; [|discriminate].
      intros [= <-]. simpl. rewrite (IH r' eq_refl). simpl.
      destruct (P x) eqn:Hx, (P y) eqn:Hy; auto.
      rewrite (HP y x Hy Hx), tuple_lt_irrefl in E. discriminate.
    + now intros [= <-].
Qed.

Lemma sorted_filter (P : A -> bool) (l : list A) :
  (forall a b, P a = true -> P b = true -> key a = key b) ->
  forall r, sorted key l = Ok r -> filter P r = filter P l.
Proof.
  intros HP. induction l as [|x l IH]; intros r; simpl.
  - now intros [= <-].
  - destruct (sorted key l) as [r'|]; cbn [bind]; [|discriminate].
    intros H. rewrite (insert_filter P x r' HP r H). simpl.
    now rewrite (IH r' eq_refl).
Qed.

Lemma insert_raises (x : A) (l : list A) :
  forall ex, insert key x l = Raise ex -> ex = TypeError.
Proof.
  induction l as [|y l IH]; intros ex; simpl; [discriminate|].
  destruct (tuple_lt (key y) (key x)) as [[|]|ex'] eqn:E; cbn [bind].
  - destruct (insert key x l) as [r'|ex'] eqn:E'; cbn [bind];
      [discriminate|].
    intros [= <-]. now apply IH.
  - discriminate.
  - intros [= <-]. now apply tuple_lt_raises in E.
Qed.

Lemma sorted_raises (l : list A) :
  forall ex, sorted key l = Raise ex -> ex = TypeError.
Proof.
  induction l as [|x l IH]; intros ex; simpl; [discriminate|].
  destruct (sorted key l) as [r'|ex'] eqn:E; cbn [bind].
  - apply insert_raises.
  - intros [= <-]. now apply IH.
Qed.

Lemma insert_returns (x : A) (l : list A) :
  (forall y, In y l -> exists c, tuple_lt (key y) (key x) = Ok c) ->
  exists r, insert key x l = Ok r.
Proof.
  induction l as [|y l IH]; intros H; simpl; [eauto|].
  destruct (H y (or_introl eq_refl)) as [c ->]. cbn [bind].
  destruct c; [|eauto].
  destruct IH as [r ->]; [intros z Hz; apply H; now right|].
  cbn [bind]. eauto.
Qed.

(** The sort returns when every two entries can be compared. *)
Lemma sorted_returns (l : list A) :
  (forall a b, In a l -> In b l ->
               exists c, tuple_lt (key a) (key b) = Ok c) ->
  exists r, sorted key l = Ok r.
Proof.
  induction l as [|x l IH]; intros H; simpl; [eauto|].
  destruct IH as [r Hr].
  { intros a b Ha Hb. apply H; now right. }
  rewrite Hr. cbn [bind].
  apply insert_returns. intros y Hy. apply H; [right|now left].
  eapply Permutation_in; [symmetry; apply sorted_perm|]; eassumption.
Qed.
End AnyKey.

(** X10.  Whenever the sort of the report returns, it has only reordered
    the entries, and the entries that share a key are in the order they
    had in the input. *)
Theorem sort_is_stable (l r : list item) :
  sorted sort_errors l = Ok r ->
  Permutation l r
  /\ forall k, filter (has_key k) r = filter (has_key k) l.
Proof.
  intros Hs. split.
  - now apply (sorted_perm sort_errors).
  - intros k. apply (sorted_filter sort_errors); auto.
    unfold has_key. intros a b Ha Hb.
    destruct (tuple_cmp (sort_errors a) k) eqn:Ea; try discriminate.
    destruct (tuple_cmp (sort_errors b) k) eqn:Eb; try discriminate.
    apply tuple_cmp_eq in Ea, Eb. congruence.
Qed.

Lemma sort_is_stable_witness :
  Permutation
    [Demo.finding "second"; Raw "x"; Demo.finding "first"]
    [Raw "x"; Demo.finding "second"; Demo.finding "first"]
  /\ forall k,
       filter (has_key k)
         [Raw "x"; Demo.finding "second"; Demo.finding "first"]
       = filter (has_key k)
           [Demo.finding "second"; Raw "x"; Demo.finding "first"].
Proof.
  apply (sort_is_stable
           [Demo.finding "second"; Raw "x"; Demo.finding "first"]
           [Raw "x"; Demo.finding "second"; Demo.finding "first"]).
  reflexivity.
Defined.

Lemma existsb_false {A : Type} (f : A -> bool) (l : list A) (x : A) :
  existsb f l = false -> In x l -> f x = false.
Proof.
  intros H Hx. destruct (f x) eqn:E; [|reflexivity].
  rewrite <- H. symmetry. apply existsb_exists. now exists x.
Qed.

Lemma diagnostics_comparable (a b : item) :
  is_raw a = false -> is_raw b = false ->
  exists c, tuple_lt (sort_errors a) (sort_errors b) = Ok c.
Proof.
  destruct a as [t|d], b as [u|e]; try discriminate. intros _ _.
  eexists. apply tuple_lt_same_type. repeat constructor.
Qed.

(** X11.  The sort of the report can only fail with [TypeError], and only
    on a collection that holds both a raw message and a Diagnostic without
    a file name; a collection of Diagnostics alone always sorts, with or
    without file names. *)
Theorem sort_fails_only_on_mixed (l : list item) :
  (forall ex,
     sorted sort_errors l = Raise ex ->
     ex = TypeError
     /\ exists t d,
          In (Raw t) l /\ In (Diag d) l /\ has_filename (Diag d) = false)
  /\ (forallb is_error l = true -> exists r, sorted sort_errors l = Ok r).
Proof.
  split.
  - intros ex Hex. split; [now apply sorted_raises in Hex|].
    destruct (existsb is_raw l) eqn:Hraw.
    + destruct (existsb (fun i => negb (has_filename i)) l) eqn:Hun.
      * apply existsb_exists in Hraw as ([t|d] & Ht & Hr);
          [|discriminate].
        apply existsb_exists in Hun as ([u|d] & Hd & Hu); [discriminate|].
        exists t, d. repeat split; auto.
        now apply negb_true_iff in Hu.
      * exfalso.
        destruct (sorted_returns sort_errors l) as [r Hr];
          [|rewrite Hr in Hex; discriminate].
        intros a b Ha Hb. eexists. apply sort_errors_lt.
        -- apply (existsb_false _ _ a) in Hun; auto.
           now apply negb_false_iff in Hun.
        -- apply (existsb_false _ _ b) in Hun; auto.
           now apply negb_false_iff in Hun.
    + exfalso.
      destruct (sorted_returns sort_errors l) as [r Hr];
        [|rewrite Hr in Hex; discriminate].
      intros a b Ha Hb. apply diagnostics_comparable.
      * now apply (existsb_false _ _ a) in Hraw.
      * now apply (existsb_false _ _ b) in Hraw.
  - intros Hall. apply sorted_returns.
    intros a b Ha Hb. rewrite forallb_forall in Hall.
    apply diagnostics_comparable.
    + specialize (Hall a Ha). now destruct a.
    + specialize (Hall b Hb). now destruct b.
Qed.

Lemma strongly_sorted_after (x : item) (a rest : list item) :
  StronglySorted item_le (a ++ x :: rest) -> Forall (item_le x) rest.
Proof.
  induction a as [|y a IH]; simpl; intros H; inversion H; subst; auto.
Qed.

Lemma diag_le_diag (d e : Errors.Error) (f g : string) :
  Errors.filename d = Some f ->
  Errors.filename e = Some g ->
  item_le (Diag d) (Diag e) ->
  String.leb f g = true
  /\ (f = g ->
      Errors.line d <= Errors.line e
      /\ (Errors.line d = Errors.line e ->
          Errors.column d <= Errors.column e)).
Proof.
  unfold item_le, sort_errors. intros -> ->. simpl.
  unfold String.leb.
  destruct (String.compare f g) eqn:Ef; try congruence.
  - intros H. split; [reflexivity|]. intros _.
    destruct (Errors.line d ?= Errors.line e) eqn:El; try congruence.
    + apply Z.compare_eq_iff in El. split; [lia|]. intros _.
      unfold Z.le.
      destruct (Errors.column d ?= Errors.column e); congruence.
    + change (Errors.line d < Errors.line e) in El. split; lia.
  - intros _. split; [reflexivity|]. intros ->.
    assert (String.compare g g = Eq)
      by now apply OrderedTypeEx.String_as_OT.cmp_eq.
    congruence.
Qed.

(** X9.  In the sorted report the Diagnostics come file by file in the
    order of the file names, and within a file by line, then by column. *)
Theorem report_ordered_by_position
    (l r a b c : list item) (d e : Errors.Error) (f g : string) :
  Forall stamped l ->
  sorted sort_errors l = Ok r ->
  r = (a ++ Diag d :: b ++ Diag e :: c)%list ->
  Errors.filename d = Some f ->
  Errors.filename e = Some g ->
  String.leb f g = true
  /\ (f = g ->
      Errors.line d <= Errors.line e
      /\ (Errors.line d = Errors.line e ->
          Errors.column d <= Errors.column e)).
Proof.
  intros Hl Hs -> Hf Hg.
  destruct (sorted_sorted l Hl) as (r' & Hr' & _ & Hsort).
  rewrite Hs in Hr'. injection Hr' as <-.
  apply (Sorted_StronglySorted item_le_transitive) in Hsort.
  apply strongly_sorted_after in Hsort.
  rewrite Forall_forall in Hsort.
  apply (diag_le_diag d e f g Hf Hg).
  apply Hsort. apply in_or_app. right. now left.
Qed.

Lemma report_ordered_by_position_witness :
  String.leb "a.py" "a.py" = true
  /\ ("a.py" = "a.py" ->
      Errors.line (Demo.furb113 1) <= Errors.line (Demo.furb113 3)
      /\ (Errors.line (Demo.furb113 1) = Errors.line (Demo.furb113 3) ->
          Errors.column (Demo.furb113 1) <= Errors.column (Demo.furb113 3))).
Proof.
  apply (report_ordered_by_position
           [Diag (Demo.furb113 3); Raw "b"; Diag (Demo.furb113 1)]
           [Raw "b"; Diag (Demo.furb113 1); Diag (Demo.furb113 3)]
           [Raw "b"] [] [] (Demo.furb113 1) (Demo.furb113 3) "a.py" "a.py").
  - repeat constructor.
  - reflexivity.
  - reflexivity.
  - reflexivity.
  - reflexivity.
Defined.

End OrderMore.

(** * More on the orchestrator *)

Section DriverMore.
Import Py Main.

Lemma ignored_in_range (env : Env) (e : Errors.Error) (file : string)
    (lines : list string) :
  Errors.filename e = Some file ->
  file <> "" ->
  get_source_lines env file = Ok lines ->
  1 - Z.of_nat (List.length lines) <= Errors.line e
    <= Z.of_nat (List.length lines) ->
  exists b, ignored_via_comment env (Diag e) = Ok b.
Proof.
  intros Hf Hne Hg H.
  assert (Hidx : exists text, index lines (Errors.line e - 1) = Ok text).
  { destruct (Z.le_gt_cases 1 (Errors.line e)).
    - apply index_in_range. lia.
    - rewrite index_wraps by lia. apply index_in_range. lia. }
  destruct Hidx as [text Ht].
  rewrite (ignored_unfold env e file lines text Hf Hne Hg Ht).
  destruct (Re.search noqa text) as [[[|a ig]|]|]; eauto.
Qed.

Lemma ignored_out_of_range (env : Env) (e : Errors.Error) (file : string)
    (lines : list string) :
  Errors.filename e = Some file ->
  file <> "" ->
  get_source_lines env file = Ok lines ->
  ~ 1 - Z.of_nat (List.length lines) <= Errors.line e
      <= Z.of_nat (List.length lines) ->
  ignored_via_comment env (Diag e) = Raise IndexError.
Proof.
  intros Hf Hne Hg H. unfold ignored_via_comment. rewrite Hf.
  destruct file as [|c file]; [contradiction|].
  rewrite Hg. cbn [bind].
  destruct (Z.le_gt_cases (Errors.line e) (Z.of_nat (List.length lines))).
  - rewrite index_before_start by lia. reflexivity.
  - rewrite index_past_end by lia. reflexivity.
Qed.

Lemma ignored_unreadable (env : Env) (e : Errors.Error) (file : string)
    (ex : exn) :
  Errors.filename e = Some file ->
  file <> "" ->
  get_source_lines env file = Raise ex ->
  ignored_via_comment env (Diag e) = Raise ex.
Proof.
  intros Hf Hne Hg. unfold ignored_via_comment. rewrite Hf.
  destruct file as [|c file]; [contradiction|].
  now rewrite Hg.
Qed.

Lemma filter_not_returns {A : Type} (p : A -> result bool) (l : list A) :
  (forall x, In x l -> exists b, p x = Ok b) ->
  exists r,
    filter_not p l = Ok r
    /\ (forall x, In x r <-> In x l /\ p x = Ok false).
Proof.
  induction l as [|x l IH]; intros H.
  - exists []. split; [reflexivity|]. intros x. simpl. tauto.
  - destruct IH as (r & Hr & Hin).
    { intros y Hy. apply H. now right. }
    destruct (H x (or_introl eq_refl)) as [b Hb].
    simpl. rewrite Hb, Hr. cbn [bind].
    destruct b.
    + exists r. split; [reflexivity|]. intros y. rewrite Hin. simpl.
      split; [tauto|]. intros [[<-|Hy] Hp]; [congruence|tauto].
    + exists (x :: r). split; [reflexivity|]. intros y. simpl.
      rewrite Hin. split.
      * intros [<-|[Hy Hp]]; tauto.
      * tauto.
Qed.

(** The filter raises as soon as the test raises on one entry, and what
    it raises is what the test raised on some entry. *)
Lemma filter_not_raises {A : Type} (p : A -> result bool) (l : list A)
    (x : A) (ex0 : exn) :
  In x l -> p x = Raise ex0 ->
  exists ex y, filter_not p l = Raise ex /\ In y l /\ p y = Raise ex.
Proof.
  induction l as [|y l IH]; intros Hx Hp; [contradiction|].
  simpl. destruct (p y) as [b|ex] eqn:Ey; cbn [bind].
  - destruct Hx as [->|Hx]; [congruence|].
    destruct (IH Hx Hp) as (ex & z & -> & Hz & Hpz).
    exists ex, z. auto.
  - exists ex, y. auto.
Qed.

(** What the files contribute before suppression: a raw message, or a
    Diagnostic of some file's tree, stamped with that file's path. *)
Lemma entries_origin (env : Env) (settings : Settings)
    (result : BuildResult env) (sources : list (BuildSource env))
    (i : item) :
  In i (flat_map (file_errors env settings result) sources) ->
  is_raw i = true
  \/ exists file t e,
       In file sources
       /\ tree env result file = Some t
       /\ In e (visit env settings t)
       /\ i = Diag (set_filename (path env file) e).
Proof.
  intros H. apply in_flat_map in H as (file & Hfile & H).
  unfold file_errors in H.
  destruct (tree env result file) as [t|] eqn:Ht; [|contradiction].
  apply in_app_or in H as [H|H].
  - left. destruct (debug settings); [|contradiction].
    destruct H as [<-|[]]. reflexivity.
  - right. apply in_map_iff in H as (e & <- & He).
    now exists file, t, e.
Qed.

Lemma entries_diag (env : Env) (settings : Settings)
    (result : BuildResult env) (sources : list (BuildSource env))
    (file : BuildSource env) (t : MypyFile env) (e : Errors.Error) :
  In file sources ->
  tree env result file = Some t ->
  In e (visit env settings t) ->
  In (Diag (set_filename (path env file) e))
    (flat_map (file_errors env settings result) sources).
Proof.
  intros Hfile Ht He.
  apply in_flat_map. exists file. split; [exact Hfile|].
  unfold file_errors. rewrite Ht.
  apply in_or_app. right.
  apply (in_map (fun e => Diag (set_filename (path env file) e))). exact He.
Qed.

(** When an entry makes the suppression test raise, the run raises: what
    is raised is [IndexError] or the exception of the read of a source
    that has a Diagnostic, and [main] lets it through. *)
Lemma entry_aborts_run
    (env : Env) (settings : Settings) (sources : list (BuildSource env))
    (opt : Options env) (result : BuildResult env) (i : item) (ex0 : exn) :
  process_options env
    (match files settings with Some fs => fs | None => [] end)
    = inr (sources, opt) ->
  build env sources (fine_grained env opt) = inr result ->
  In i (flat_map (file_errors env settings result) sources) ->
  ignored_via_comment env i = Raise ex0 ->
  exists ex,
    run_refurb env settings = Raise ex
    /\ (ex = IndexError
        \/ exists file p t e,
             In file sources /\ path env file = Some p
             /\ tree env result file = Some t
             /\ In e (visit env settings t)
             /\ get_source_lines env p = Raise ex)
    /\ (forall args,
          load_settings env args = inr settings ->
          help settings = false ->
          version settings = false ->
          generate settings = false ->
          explain settings = None ->
          main env args = Raise ex).
Proof.
  intros Hp Hb Hi Hraise.
  destruct (filter_not_raises (ignored_via_comment env) _ i ex0 Hi Hraise)
    as (ex & y & Hfilter & Hy & Hpy).
  assert (Hrun : run_refurb env settings = Raise ex).
  { unfold run_refurb. now rewrite Hp, Hb, Hfilter. }
  exists ex. split; [exact Hrun|split].
  - apply ignored_raises in Hpy as [->|(e & file0 & -> & Hf & Hg)];
      [now left|right].
    apply entries_origin in Hy as [Hraw|Hy]; [discriminate|].
    destruct Hy as (file & t & e0 & Hfile & Ht & He & [= ->]).
    simpl in Hf. now exists file, file0, t, e0.
  - intros args Hs Hh Hv Hg Hx.
    unfold main. now rewrite Hs, Hh, Hv, Hg, Hx, Hrun.
Qed.

(** X7.  When the options are accepted, the build succeeds, every source
    has a non-empty path, and for every Diagnostic the file can be read
    and the Diagnostic lies within its lines (counting negative lines
    from the end), [run_refurb] returns: its report is sorted, holds
    exactly the entries that are not suppressed, and every Diagnostic in
    it carries the path of one of the sources. *)
Theorem run_refurb_report
    (env : Env) (settings : Settings) (sources : list (BuildSource env))
    (opt : Options env) (result : BuildResult env) :
  process_options env
    (match files settings with Some fs => fs | None => [] end)
    = inr (sources, opt) ->
  build env sources (fine_grained env opt) = inr result ->
  (forall file,
     In file sources ->
     exists p,
       path env file = Some p /\ p <> ""
       /\ forall t e,
            tree env result file = Some t ->
            In e (visit env settings t) ->
            exists lines,
              get_source_lines env p = Ok lines
              /\ 1 - Z.of_nat (List.length lines) <= Errors.line e
                   <= Z.of_nat (List.length lines)) ->
  exists report,
    run_refurb env settings = Ok report
    /\ Sorted item_le report
    /\ (forall i,
          In i report
          <-> In i (flat_map (file_errors env settings result) sources)
              /\ ignored_via_comment env i = Ok false)
    /\ (forall e,
          In (Diag e) report ->
          exists file, In file sources /\ Errors.filename e = path env file).
Proof.
  intros Hp Hb Hsrc.
  set (entries := flat_map (file_errors env settings result) sources).
  assert (Hentry : forall i, In i entries ->
             stamped i /\ exists b, ignored_via_comment env i = Ok b).
  { intros i Hi. apply entries_origin in Hi as [Hi|Hi].
    - destruct i; [|discriminate]. split; [reflexivity|]. now exists false.
    - destruct Hi as (file & t & e & Hfile & Ht & He & ->).
      destruct (Hsrc file Hfile) as (p & Hpath & Hne & Hlines).
      destruct (Hlines t e Ht He) as (lines & Hg & Hrange).
      rewrite Hpath. split.
      + unfold stamped. simpl. now destruct p.
      + now apply (ignored_in_range env _ p lines). }
  destruct (filter_not_returns (ignored_via_comment env) entries)
    as (kept & Hkept & Hin).
  { intros i Hi. now apply Hentry. }
  assert (Hst : Forall stamped kept).
  { apply Forall_forall. intros i Hi. apply Hentry. now apply Hin. }
  destruct (sorted_sorted kept Hst) as (report & Hrep & Hperm & Hsort).
  exists report. split; [|split; [exact Hsort|split]].
  - unfold run_refurb. rewrite Hp, Hb. fold entries.
    rewrite Hkept. cbn [bind]. exact Hrep.
  - intros i. rewrite <- Hin. split; intros Hi.
    + eapply Permutation_in; [symmetry|]; eassumption.
    + eapply Permutation_in; eassumption.
  - intros e He.
    assert (Hent : In (Diag e) entries).
    { apply Hin. eapply Permutation_in; [symmetry|]; eassumption. }
    apply entries_origin in Hent as [Hraw|Hent]; [discriminate|].
    destruct Hent as (file & t & e0 & Hfile & _ & _ & [= ->]).
    now exists file.
Qed.

Lemma run_refurb_report_witness :
  let env := Demo.env Demo.a_py
               (fun _ => [ListExtend.append_call "nums" 2 0;
                          ListExtend.append_call "nums" 3 0]) None in
  exists report,
    run_refurb env (Demo.settings ["a.py"]) = Ok report
    /\ Sorted item_le report
    /\ (forall i,
          In i report
          <-> In i (flat_map (file_errors env (Demo.settings ["a.py"]) tt)
                      ["a.py"])
              /\ ignored_via_comment env i = Ok false)
    /\ (forall e,
          In (Diag e) report ->
          exists file, In file ["a.py"] /\ Errors.filename e = path env file).
Proof.
  apply (run_refurb_report
           (Demo.env Demo.a_py
              (fun _ => [ListExtend.append_call "nums" 2 0;
                         ListExtend.append_call "nums" 3 0]) None)
           (Demo.settings ["a.py"]) ["a.py"] tt tt).
  - reflexivity.
  - reflexivity.
  - intros file [<-|[]]. exists "a.py".
    split; [reflexivity|]. split; [discriminate|].
    intros t e [= <-] [<-|[]]. exists Demo.a_py_lines.
    split; [reflexivity|]. simpl. lia.
Defined.

(** X8.  When the options are accepted and the build succeeds, one
    Diagnostic whose line lies outside its file makes the whole run
    raise: [run_refurb] returns no report, and [main] no status.  What is
    raised is [IndexError] whenever the file of every Diagnostic can be
    read. *)
Theorem stray_line_aborts_run
    (env : Env) (settings : Settings) (sources : list (BuildSource env))
    (opt : Options env) (result : BuildResult env)
    (file : BuildSource env) (p : string) (lines : list string)
    (t : MypyFile env) (e : Errors.Error) :
  process_options env
    (match files settings with Some fs => fs | None => [] end)
    = inr (sources, opt) ->
  build env sources (fine_grained env opt) = inr result ->
  In file sources ->
  path env file = Some p ->
  p <> "" ->
  tree env result file = Some t ->
  In e (visit env settings t) ->
  get_source_lines env p = Ok lines ->
  ~ 1 - Z.of_nat (List.length lines) <= Errors.line e
      <= Z.of_nat (List.length lines) ->
  exists ex,
    run_refurb env settings = Raise ex
    /\ (sources_readable env settings result sources -> ex = IndexError)
    /\ (forall args,
          load_settings env args = inr settings ->
          help settings = false ->
          version settings = false ->
          generate settings = false ->
          explain settings = None ->
          main env args = Raise ex).
Proof.
  intros Hp Hb Hfile Hpath Hne Ht He Hg Hline.
  destruct (entry_aborts_run env settings sources opt result
              (Diag (set_filename (path env file) e)) IndexError Hp Hb)
    as (ex & Hrun & Hex & Hmain).
  - now apply entries_diag with (t := t).
  - rewrite Hpath. now apply (ignored_out_of_range env _ p lines).
  - exists ex. split; [exact Hrun|split; [|exact Hmain]].
    intros Hread.
    destruct Hex as [->|(f' & p' & t' & e' & Hf' & Hp' & Ht' & He' & Hg')];
      [reflexivity|].
    destruct (Hread f' p' t' e' Hf' Hp' Ht' He') as [lines' Hok].
    congruence.
Qed.

Lemma stray_line_aborts_run_witness :
  let env := Demo.env Demo.a_py
               (fun _ => [ListExtend.append_call "nums" 7 0;
                          ListExtend.append_call "nums" 8 0]) None in
  exists ex,
    run_refurb env (Demo.settings ["a.py"]) = Raise ex
    /\ (sources_readable env (Demo.settings ["a.py"]) tt ["a.py"] ->
        ex = IndexError)
    /\ (forall args,
          load_settings env args = inr (Demo.settings ["a.py"]) ->
          help (Demo.settings ["a.py"]) = false ->
          version (Demo.settings ["a.py"]) = false ->
          generate (Demo.settings ["a.py"]) = false ->
          explain (Demo.settings ["a.py"]) = None ->
          main env args = Raise ex).
Proof.
  apply (stray_line_aborts_run
           (Demo.env Demo.a_py
              (fun _ => [ListExtend.append_call "nums" 7 0;
                         ListExtend.append_call "nums" 8 0]) None)
           (Demo.settings ["a.py"]) ["a.py"] tt tt "a.py" "a.py"
           Demo.a_py_lines
           [ListExtend.append_call "nums" 7 0;
            ListExtend.append_call "nums" 8 0]
           (ListExtend.ErrorUseListExtend 7 0)).
  - reflexivity.
  - reflexivity.
  - left. reflexivity.
  - reflexivity.
  - discriminate.
  - reflexivity.
  - left. reflexivity.
  - reflexivity.
  - simpl. lia.
Defined.

(** X14.  When the options are accepted and the build succeeds, one
    Diagnostic in a file that cannot be read (missing, or not UTF-8)
    makes the whole run raise, although the engine built the file:
    [run_refurb] returns no report, and [main] no status.  What is raised
    is the exception of the read of some source, or [IndexError]. *)
Theorem unreadable_file_aborts_run
    (env : Env) (settings : Settings) (sources : list (BuildSource env))
    (opt : Options env) (result : BuildResult env)
    (file : BuildSource env) (p : string) (t : MypyFile env)
    (e : Errors.Error) (ex0 : exn) :
  process_options env
    (match files settings with Some fs => fs | None => [] end)
    = inr (sources, opt) ->
  build env sources (fine_grained env opt) = inr result ->
  In file sources ->
  path env file = Some p ->
  p <> "" ->
  tree env result file = Some t ->
  In e (visit env settings t) ->
  get_source_lines env p = Raise ex0 ->
  exists ex,
    run_refurb env settings = Raise ex
    /\ (ex = IndexError
        \/ exists file' p' t' e',
             In file' sources /\ path env file' = Some p'
             /\ tree env result file' = Some t'
             /\ In e' (visit env settings t')
             /\ get_source_lines env p' = Raise ex)
    /\ (forall args,
          load_settings env args = inr settings ->
          help settings = false ->
          version settings = false ->
          generate settings = false ->
          explain settings = None ->
          main env args = Raise ex).
Proof.
  intros Hp Hb Hfile Hpath Hne Ht He Hg.
  apply (entry_aborts_run env settings sources opt result
           (Diag (set_filename (path env file) e)) ex0 Hp Hb).
  - now apply entries_diag with (t := t).
  - rewrite Hpath. now apply (ignored_unreadable env _ p).
Qed.

Lemma unreadable_file_aborts_run_witness :
  let env := Demo.env Demo.latin_py
               (fun _ => [ListExtend.append_call "nums" 1 0;
                          ListExtend.append_call "nums" 2 0]) None in
  exists ex,
    run_refurb env (Demo.settings ["latin.py"]) = Raise ex
    /\ (ex = IndexError
        \/ exists file' p' t' e',
             In file' ["latin.py"] /\ path env file' = Some p'
             /\ tree env tt file' = Some t'
             /\ In e' (visit env (Demo.settings ["latin.py"]) t')
             /\ get_source_lines env p' = Raise ex)
    /\ (forall args,
          load_settings env args = inr (Demo.settings ["latin.py"]) ->
          help (Demo.settings ["latin.py"]) = false ->
          version (Demo.settings ["latin.py"]) = false ->
          generate (Demo.settings ["latin.py"]) = false ->
          explain (Demo.settings ["latin.py"]) = None ->
          main env args = Raise ex).
Proof.
  apply (unreadable_file_aborts_run
           (Demo.env Demo.latin_py
              (fun _ => [ListExtend.append_call "nums" 1 0;
                         ListExtend.append_call "nums" 2 0]) None)
           (Demo.settings ["latin.py"]) ["latin.py"] tt tt
           "latin.py" "latin.py"
           [ListExtend.append_call "nums" 1 0;
            ListExtend.append_call "nums" 2 0]
           (ListExtend.ErrorUseListExtend 1 0) UnicodeDecodeError).
  - reflexivity.
  - reflexivity.
  - left. reflexivity.
  - reflexivity.
  - discriminate.
  - reflexivity.
  - left. reflexivity.
  - reflexivity.
Defined.

(** A report of raw messages is printed as it is: the messages joined by
    newlines, without the closing hint, whatever [quiet] is. *)
Lemma format_raw (env : Env) (texts : list string) (quiet : bool) :
  format_errors env (map Raw texts) quiet = String.concat newline texts.
Proof.
  unfold format_errors.
  assert (existsb is_error (map Raw texts) = false) as ->
    by (induction texts; auto).
  rewrite andb_false_r, map_map. now rewrite map_id.
Qed.

(** X12.  When the option parser gives up ([SystemExit]), [run_refurb]
    returns the lines it wrote to [stderr], each after [refurb: ], and
    [main] prints them joined by newlines, without the closing hint, and
    returns 1; when nothing was written, [main] prints nothing and
    returns 0. *)
Theorem option_failure_report
    (env : Env) (args : list string) (settings : Settings)
    (stderr : list string) :
  load_settings env args = inr settings ->
  help settings = false ->
  version settings = false ->
  generate settings = false ->
  explain settings = None ->
  process_options env
    (match files settings with Some fs => fs | None => [] end)
    = inl stderr ->
  run_refurb env settings
    = Ok (map (fun err => Raw ("refurb: " ++ err)) stderr)
  /\ main env args
     = Ok (match stderr with
           | [] => []
           | _ :: _ =>
               [Print (String.concat newline
                         (map (fun err => "refurb: " ++ err) stderr))]
           end,
           match stderr with
           | [] => 0
           | _ :: _ => 1
           end).
Proof.
  intros Hs Hh Hv Hg Hx Hp.
  assert (Hrun : run_refurb env settings
                 = Ok (map (fun err => Raw ("refurb: " ++ err)) stderr)).
  { unfold run_refurb. now rewrite Hp. }
  split; [exact Hrun|].
  unfold main. rewrite Hs, Hh, Hv, Hg, Hx, Hrun. cbn [bind].
  rewrite <- (map_map (fun err => "refurb: " ++ err) Raw), format_raw.
  destruct stderr as [|err [|err' stderr]]; reflexivity.
Qed.

Lemma option_failure_report_witness :
  run_refurb (Demo.rejecting ["usage: mypy"; "error: no such option"])
    (Demo.settings ["--bad"])
    = Ok (map (fun err => Raw ("refurb: " ++ err))
            ["usage: mypy"; "error: no such option"])
  /\ main (Demo.rejecting ["usage: mypy"; "error: no such option"])
       ["--bad"]
     = Ok (match ["usage: mypy"; "error: no such option"] with
           | [] => []
           | _ :: _ =>
               [Print (String.concat newline
                         (map (fun err => "refurb: " ++ err)
                            ["usage: mypy"; "error: no such option"]))]
           end,
           match ["usage: mypy"; "error: no such option"] with
           | [] => 0
           | _ :: _ => 1
           end).
Proof.
  apply (option_failure_report
           (Demo.rejecting ["usage: mypy"; "error: no such option"])
           ["--bad"] (Demo.settings ["--bad"])
           ["usage: mypy"; "error: no such option"]);
    reflexivity.
Defined.

(** X13.  When the build raises [CompileError], [main] prints the
    rewritten messages joined by newlines, never followed by the closing
    hint, and returns 1 when there is at least one message; with no
    message at all it returns 0, and it prints nothing when the joined
    text is empty. *)
Theorem compile_error_report
    (env : Env) (args : list string) (settings : Settings)
    (sources : list (BuildSource env)) (opt : Options env)
    (messages : list string) :
  load_settings env args = inr settings ->
  help settings = false ->
  version settings = false ->
  generate settings = false ->
  explain settings = None ->
  process_options env
    (match files settings with Some fs => fs | None => [] end)
    = inr (sources, opt) ->
  build env sources (fine_grained env opt) = inl messages ->
  let text :=
    String.concat newline
      (map (Re.sub_leading "mypy: " "refurb: ") messages) in
  main env args
    = Ok (match text with
          | EmptyString => []
          | _ => [Print text]
          end,
          match messages with
          | [] => 0
          | _ :: _ => 1
          end).
Proof.
  intros Hs Hh Hv Hg Hx Hp Hb text. subst text.
  unfold main. rewrite Hs, Hh, Hv, Hg, Hx.
  unfold run_refurb. rewrite Hp, Hb. cbn [bind].
  rewrite <- (map_map (Re.sub_leading "mypy: " "refurb: ") Raw), format_raw.
  now destruct messages.
Qed.

Lemma compile_error_report_witness :
  let text :=
    String.concat newline
      (map (Re.sub_leading "mypy: " "refurb: ")
         ["mypy: can't read file"; "a.py: error: invalid syntax"]) in
  main (Demo.env Demo.a_py (fun _ => [])
          (Some ["mypy: can't read file"; "a.py: error: invalid syntax"]))
    ["a.py"]
    = Ok (match text with
          | EmptyString => []
          | _ => [Print text]
          end,
          match ["mypy: can't read file"; "a.py: error: invalid syntax"] with
          | [] => 0
          | _ :: _ => 1
          end).
Proof.
  apply (compile_error_report
           (Demo.env Demo.a_py (fun _ => [])
              (Some ["mypy: can't read file";
                     "a.py: error: invalid syntax"]))
           ["a.py"] (Demo.settings ["a.py"]) ["a.py"] tt
           ["mypy: can't read file"; "a.py: error: invalid syntax"]);
    reflexivity.
Defined.

End DriverMore.
